(** * A live GLSL sandbox around a spinning cube

    Shallow embedding of [examples/glsl-sandbox-cube.py] and the properties
    its specification states about it.

    - Python floats are IEEE binary64 numbers: Rocq's primitive [float],
      whose operations [SpecFloat] specifies.  Module [Binary64Facts] proves
      from that specification the facts of binary64 arithmetic the handlers
      rely on.
    - Python ints are [Z].
    - The numpy, OpenGL and GLSL-compiler side of vispy is an interface
      ([Library]): the script only calls it. *)

From Stdlib Require Import ZArith QArith Qpower Floats Lia Bool List.
From stdpp Require Import base gmap strings.
Open Scope Z_scope.

(** * Binary64 numbers *)
Module Binary64.

(** The binary64 number nearest to [n * 2^e], ties to even. *)
Definition dyadic (n e : Z) : float :=
  SF2Prim (binary_normalize prec emax n e false).

(** The exact rational value of a finite binary64 number. *)
Definition SF2Q (x : spec_float) : option Q :=
  match x with
  | S754_zero _ => Some 0%Q
  | S754_finite s m e =>
      Some ((if s then - inject_Z (Zpos m) else inject_Z (Zpos m)) * Qpower 2 e)%Q
  | _ => None
  end.

Definition float_value (x : float) : option Q := SF2Q (Prim2SF x).

(** [x] is finite and its value is the rational [q]. *)
Definition float_is (x : float) (q : Q) : Prop :=
  exists a, float_value x = Some a /\ (a == q)%Q.

End Binary64.

(** * Python numbers and exceptions *)
Module Py.

(** The exceptions the script can meet. [ShaderCompileError] carries the
    GLSL compiler's diagnostic text. *)
Inductive exn : Type :=
  | ZeroDivisionError
  | OverflowError
  | ShaderCompileError (diagnostic : string).

(** An expression either raises or yields a value. *)
Definition result (A : Type) : Type := (exn + A)%type.

(** A handler (a method returning [None]) either returns or raises. *)
Inductive outcome : Type :=
  | Done
  | Raised (e : exn).

(** [float(n)] for a Python int [n]: the nearest binary64 number, ties to
    even; [OverflowError] when that is beyond the binary64 range. *)
Definition float_of_int (n : Z) : result float :=
  match binary_normalize prec emax n 0 false with
  | S754_infinity _ => inl OverflowError
  | x => inr (SF2Prim x)
  end.

(** [a / b] for an int [a] and a float [b]: [a] is converted first, then a
    zero divisor raises. *)
Definition int_truediv_float (a : Z) (b : float) : result float :=
  match float_of_int a with
  | inl e => inl e
  | inr x => if (b =? 0)%float then inl ZeroDivisionError else inr (x / b)%float
  end.

End Py.
Import Py.

(** * The library the script calls *)

(** What a shader variable can be bound to with [program[name] = value]. *)
Inductive pvalue (mat4 ndarray : Type) : Type :=
  | PMat (m : mat4)
  | PTexture2D (image : ndarray)
  | PVertexBuffer (data : ndarray).
Arguments PMat {mat4 ndarray} m.
Arguments PTexture2D {mat4 ndarray} image.
Arguments PVertexBuffer {mat4 ndarray} data.

(** numpy arrays, [vispy.util.transforms], [vispy.dataio], the GLSL compiler
    of the graphics context and the rasterizer behind [Program.draw].  The
    transforms that update a matrix in place return the updated matrix. *)
Class Library : Type := {
  ndarray : Type;
  mat4 : Type;
  (** [np.eye(4, dtype=np.float32)] *)
  eye : mat4;
  (** [translate(M, x, y, z)] *)
  translate : mat4 -> Z -> Z -> Z -> mat4;
  (** [rotate(M, angle, x, y, z)] *)
  rotate : mat4 -> float -> Z -> Z -> Z -> mat4;
  (** [perspective(fovy, aspect, znear, zfar)] *)
  perspective : float -> float -> float -> float -> mat4;
  (** [dataio.read_mesh('cube.obj')]: positions, faces, normals, texcoords *)
  cube_obj : ndarray * ndarray * ndarray * ndarray;
  (** [dataio.crate()] *)
  crate : ndarray;
  (** [np.random.uniform(0, 1, positions.shape).astype('float32')] *)
  random_colors : ndarray;
  (** [faces.astype(np.uint16)] *)
  astype_uint16 : ndarray -> ndarray;
  (** a compiled and linked shader program *)
  binary : Type;
  (** compiling and linking a vertex/fragment source pair: the diagnostic
      text on failure *)
  glsl_build : string -> string -> string + binary;
  (** the picture a draw call leaves in the framebuffer *)
  frame : Type;
  rasterize : binary -> gmap string (pvalue mat4 ndarray) -> ndarray -> frame
}.

(** * The script *)

Definition VERT_CODE : string := "
uniform   mat4 u_model;
uniform   mat4 u_view;
uniform   mat4 u_projection;

attribute vec3 a_position;
attribute vec2 a_texcoord;

varying vec2 v_texcoord;

void main()
{
    v_texcoord = a_texcoord;
    gl_Position = u_projection * u_view * u_model * vec4(a_position,1.0);
    //gl_Position = vec4(a_position,1.0);
}
".

Definition FRAG_CODE : string := "
uniform sampler2D u_texture;
varying vec2 v_texcoord;

void main()
{
    float ty = v_texcoord.y;
    float tx = sin(ty*50.0)*0.01 + v_texcoord.x;
    gl_FragColor = texture2D(u_texture, vec2(tx, ty));
}
".

(** The values of the library at hand. *)
Abbreviation value := (pvalue mat4 ndarray).

Section Sandbox.
Context {L : Library}.

(** ** [gloo.Program] *)

(** [shaders] holds the code of [shaders[0]] (vertex) and [shaders[1]]
    (fragment); [active] is the compiled program draws use; [variables] are
    the uniforms and attributes bound by name. *)
Record Program : Type := {
  shaders : string * string;
  active : binary;
  variables : gmap string value
}.

(** Modelled from the spec: [gloo.Program] is not under src/.  The spec
    (4.1, 4.3) describes [compile(vertex_source, fragment_source)]: both
    stages are compiled and linked; on success the new program becomes active
    and the bindings made before are kept for it; on failure a
    [ShaderCompileError] with the compiler's diagnostic text is signaled and
    the previously active program remains in effect. *)
Definition compile (vertex_source fragment_source : string) (p : Program)
  : Program * outcome :=
  match glsl_build vertex_source fragment_source with
  | inr b =>
      ({| shaders := (vertex_source, fragment_source);
          active := b;
          variables := variables p |}, Done)
  | inl diagnostic => (p, Raised (ShaderCompileError diagnostic))
  end.

(** The two entries of [program.shaders]: [shaders[0]] and [shaders[1]]. *)
Inductive stage : Type :=
  | Vertex
  | Fragment.

(** Modelled from the spec: [gloo.Shader] is not under src/.
    [program.shaders[i].set_code(code)] hands the program the text of one
    stage; the spec describes a hand-over of source text by the contract of
    [compile] alone, so the call is that [compile] of the new text of its
    stage with the text the program holds for the other stage. *)
Definition Shader_set_code (i : stage) (code : string) (p : Program)
  : Program * outcome :=
  match i with
  | Vertex => compile code (snd (shaders p)) p
  | Fragment => compile (fst (shaders p)) code p
  end.

(** Modelled from the spec: the constructor [gloo.Program(vert, frag)] is not
    under src/; it is the first [compile], of a program without bindings. *)
Definition Program_new (vert frag : string) : result Program :=
  match glsl_build vert frag with
  | inr b => inr {| shaders := (vert, frag); active := b; variables := ∅ |}
  | inl diagnostic => inl (ShaderCompileError diagnostic)
  end.

(** Modelled from the spec: [program[name] = value] ([set_uniform] and
    [bind_attribute] of 4.1) is not under src/; the value is associated with
    the name.  A name the active program does not declare is tolerated
    silently: the association is kept, for the rasterizer to ignore. *)
Definition Program_setitem (name : string) (v : value) (p : Program) : Program :=
  {| shaders := shaders p;
     active := active p;
     variables := <[name := v]> (variables p) |}.

(** Modelled from the spec: [program.draw(primitive_kind, index_buffer)] is
    not under src/; it draws with the active program, the bound variables and
    the index buffer. *)
Definition Program_draw (p : Program) (index_buffer : ndarray) : frame :=
  rasterize (active p) (variables p) index_buffer.

(** ** The OpenGL context *)

Record GLContext : Type := {
  clear_color : Z * Z * Z * Z;
  depth_test : bool;
  viewport : Z * Z * Z * Z;
  (** [None]: cleared *)
  framebuffer : option frame
}.

Definition glClearColor (r g b a : Z) (gl : GLContext) : GLContext :=
  {| clear_color := (r, g, b, a); depth_test := depth_test gl;
     viewport := viewport gl; framebuffer := framebuffer gl |}.

Definition glEnable_DEPTH_TEST (gl : GLContext) : GLContext :=
  {| clear_color := clear_color gl; depth_test := true;
     viewport := viewport gl; framebuffer := framebuffer gl |}.

Definition glViewport (x y width height : Z) (gl : GLContext) : GLContext :=
  {| clear_color := clear_color gl; depth_test := depth_test gl;
     viewport := (x, y, width, height); framebuffer := framebuffer gl |}.

Definition glClear (gl : GLContext) : GLContext :=
  {| clear_color := clear_color gl; depth_test := depth_test gl;
     viewport := viewport gl; framebuffer := None |}.

Definition gl_present (f : frame) (gl : GLContext) : GLContext :=
  {| clear_color := clear_color gl; depth_test := depth_test gl;
     viewport := viewport gl; framebuffer := Some f |}.

(** ** [class Canvas(app.Canvas)] *)

Record Timer : Type := {
  interval : float;
  running : bool
}.

(** [updates] counts the repaints requested with [self.update()]. *)
Record Canvas : Type := {
  geometry : Z * Z * Z * Z;
  program : Program;
  view : mat4;
  model : mat4;
  projection : mat4;
  theta : float;
  phi : float;
  timer : Timer;
  updates : nat
}.

Definition set_program (p : Program) (self : Canvas) : Canvas :=
  {| geometry := geometry self; program := p; view := view self;
     model := model self; projection := projection self; theta := theta self;
     phi := phi self; timer := timer self; updates := updates self |}.

Definition set_model (m : mat4) (self : Canvas) : Canvas :=
  {| geometry := geometry self; program := program self; view := view self;
     model := m; projection := projection self; theta := theta self;
     phi := phi self; timer := timer self; updates := updates self |}.

Definition set_projection (m : mat4) (self : Canvas) : Canvas :=
  {| geometry := geometry self; program := program self; view := view self;
     model := model self; projection := m; theta := theta self;
     phi := phi self; timer := timer self; updates := updates self |}.

Definition set_theta (a : float) (self : Canvas) : Canvas :=
  {| geometry := geometry self; program := program self; view := view self;
     model := model self; projection := projection self; theta := a;
     phi := phi self; timer := timer self; updates := updates self |}.

Definition set_phi (a : float) (self : Canvas) : Canvas :=
  {| geometry := geometry self; program := program self; view := view self;
     model := model self; projection := projection self; theta := theta self;
     phi := a; timer := timer self; updates := updates self |}.

(** [self.program[name] = v] *)
Definition setitem (name : string) (v : value) (self : Canvas) : Canvas :=
  set_program (Program_setitem name v (program self)) self.

(** [self.update()]: ask the toolkit for a repaint. *)
Definition update (self : Canvas) : Canvas :=
  {| geometry := geometry self; program := program self; view := view self;
     model := model self; projection := projection self; theta := theta self;
     phi := phi self; timer := timer self; updates := S (updates self) |}.

(** The five attributes [init_transforms] creates. *)
Record Transforms : Type := {
  the_view : mat4;
  the_model : mat4;
  the_projection : mat4;
  the_theta : float;
  the_phi : float
}.

(** [Canvas.init_transforms].  [__init__] calls it when these five
    attributes do not exist yet: of [self] it reads [self.program] only, and
    what it leaves is the attributes it assigns and the program with the two
    bindings added.  [self.theta = 0] and [self.phi = 0] store the int 0,
    which the first [+= .5] converts to the float 0.0; the float stands for
    it here. *)
Definition init_transforms (self_program : Program) : Transforms * Program :=
  let self_view := eye in
  let self_model := eye in
  let self_projection := eye in
  let self_theta := 0%float in
  let self_phi := 0%float in
  let self_view := translate self_view 0 0 (-5) in
  let self_program := Program_setitem "u_model" (PMat self_model) self_program in
  let self_program := Program_setitem "u_view" (PMat self_view) self_program in
  ({| the_view := self_view; the_model := self_model;
      the_projection := self_projection;
      the_theta := self_theta; the_phi := self_phi |}, self_program).

(** [Canvas.update_transforms], connected to the timer. *)
Definition update_transforms (self : Canvas) : Canvas :=
  let self := set_theta (theta self + 0.5)%float self in
  let self := set_phi (phi self + 0.5)%float self in
  let self := set_model eye self in
  let self := set_model (rotate (model self) (theta self) 0 0 1) self in
  let self := set_model (rotate (model self) (phi self) 0 1 0) self in
  let self := setitem "u_model" (PMat (model self)) self in
  update self.

(** [Canvas.on_initialize] *)
Definition on_initialize (gl : GLContext) : GLContext :=
  glEnable_DEPTH_TEST (glClearColor 1 1 1 1 gl).

(** [Canvas.on_resize]: [event.size] is [(width, height)].  An exception
    leaves the canvas as it is after [glViewport]. *)
Definition on_resize (size : Z * Z) (self : Canvas) (gl : GLContext)
  : Canvas * GLContext * outcome :=
  let '(width, height) := size in
  let gl := glViewport 0 0 width height gl in
  match float_of_int height with
  | inl e => (self, gl, Raised e)
  | inr fheight =>
      match int_truediv_float width fheight with
      | inl e => (self, gl, Raised e)
      | inr aspect =>
          let self := set_projection (perspective 45%float aspect 2%float 10%float) self in
          let self := setitem "u_projection" (PMat (projection self)) self in
          (self, gl, Done)
      end
  end.

(** [Canvas.on_paint] *)
Definition on_paint (faces_buffer : ndarray) (self : Canvas) (gl : GLContext)
  : GLContext :=
  let gl := glClear gl in
  gl_present (Program_draw (program self) faces_buffer) gl.

(** [app.Timer(interval)] and [timer.start()]. *)
Definition Timer_new (seconds : float) : Timer :=
  {| interval := seconds; running := false |}.

Definition Timer_start (t : Timer) : Timer :=
  {| interval := interval t; running := true |}.

(** [Canvas.__init__]: the canvas it leaves has the attributes it assigns
    itself ([geometry], [program], [timer]) and the five that
    [init_transforms] assigns; no repaint has been requested. *)
Definition Canvas_init (positions texcoords : ndarray) : result Canvas :=
  let self_geometry := (0, 0, 400, 400) in
  match Program_new VERT_CODE FRAG_CODE with
  | inl e => inl e
  | inr self_program =>
      let self_program :=
        Program_setitem "a_position" (PVertexBuffer positions) self_program in
      let self_program :=
        Program_setitem "a_texcoord" (PVertexBuffer texcoords) self_program in
      let self_program :=
        Program_setitem "u_texture" (PTexture2D crate) self_program in
      let '(transforms, self_program) := init_transforms self_program in
      let self_timer := Timer_new (1 / 60)%float in
      let self_timer := Timer_start self_timer in
      inr {| geometry := self_geometry; program := self_program;
             view := the_view transforms; model := the_model transforms;
             projection := the_projection transforms;
             theta := the_theta transforms; phi := the_phi transforms;
             timer := self_timer; updates := 0 |}
  end.

(** ** [class MainWindow(QtGui.QWidget)] *)

(** The two editors hold their text; the labels, the button and the layout
    carry no state. *)
Record MainWindow : Type := {
  vertEdit : string;
  fragEdit : string;
  canvas : Canvas
}.

Definition MainWindow_init (positions texcoords : ndarray) : result MainWindow :=
  match Canvas_init positions texcoords with
  | inl e => inl e
  | inr c => inr {| vertEdit := VERT_CODE; fragEdit := FRAG_CODE; canvas := c |}
  end.

Definition set_canvas (c : Canvas) (self : MainWindow) : MainWindow :=
  {| vertEdit := vertEdit self; fragEdit := fragEdit self; canvas := c |}.

(** [MainWindow.on_compile], connected to the button: two calls in a row,
    the second only when the first has returned, since an exception leaves
    the handler. *)
Definition on_compile (self : MainWindow) : MainWindow * outcome :=
  let vert_code := vertEdit self in
  let frag_code := fragEdit self in
  let '(p, r) := Shader_set_code Vertex vert_code (program (canvas self)) in
  let self := set_canvas (set_program p (canvas self)) self in
  match r with
  | Raised e => (self, Raised e)
  | Done =>
      let '(p, r) := Shader_set_code Fragment frag_code (program (canvas self)) in
      (set_canvas (set_program p (canvas self)) self, r)
  end.

(** ** The running application *)

(** The module-level data, the graphics context and the window. *)
Record World : Type := {
  positions : ndarray;
  faces : ndarray;
  normals : ndarray;
  texcoords : ndarray;
  colors : ndarray;
  faces_buffer : ndarray;
  gl : GLContext;
  window : MainWindow
}.

Definition with_gl (g : GLContext) (w : World) : World :=
  {| positions := positions w; faces := faces w; normals := normals w;
     texcoords := texcoords w; colors := colors w;
     faces_buffer := faces_buffer w; gl := g; window := window w |}.

Definition with_window (m : MainWindow) (w : World) : World :=
  {| positions := positions w; faces := faces w; normals := normals w;
     texcoords := texcoords w; colors := colors w;
     faces_buffer := faces_buffer w; gl := gl w; window := m |}.

Definition with_canvas (c : Canvas) (w : World) : World :=
  with_window {| vertEdit := vertEdit (window w); fragEdit := fragEdit (window w);
                 canvas := c |} w.

(** The module level and [__main__]: read the mesh, build the window on the
    graphics context [gl0] the toolkit provides. *)
Definition main (gl0 : GLContext) : result World :=
  let '(positions, faces, normals, texcoords) := cube_obj in
  let colors := random_colors in
  let faces_buffer := astype_uint16 faces in
  match MainWindow_init positions texcoords with
  | inl e => inl e
  | inr m =>
      inr {| positions := positions; faces := faces; normals := normals;
             texcoords := texcoords; colors := colors;
             faces_buffer := faces_buffer; gl := gl0; window := m |}
  end.

(** What the event loop delivers. *)
Inductive Event : Type :=
  | Initialize
  | Resize (width height : Z)
  | Paint
  | Tick
  | EditVert (text : string)
  | EditFrag (text : string)
  | CompileClicked.

Definition the_canvas (w : World) : Canvas := canvas (window w).

Definition dispatch (ev : Event) (w : World) : World * outcome :=
  match ev with
  | Initialize => (with_gl (on_initialize (gl w)) w, Done)
  | Resize width height =>
      let '(c, g, r) := on_resize (width, height) (the_canvas w) (gl w) in
      (with_gl g (with_canvas c w), r)
  | Paint => (with_gl (on_paint (faces_buffer w) (the_canvas w) (gl w)) w, Done)
  | Tick => (with_canvas (update_transforms (the_canvas w)) w, Done)
  | EditVert text =>
      (with_window {| vertEdit := text; fragEdit := fragEdit (window w);
                      canvas := canvas (window w) |} w, Done)
  | EditFrag text =>
      (with_window {| vertEdit := vertEdit (window w); fragEdit := text;
                      canvas := canvas (window w) |} w, Done)
  | CompileClicked =>
      let '(m, r) := on_compile (window w) in (with_window m w, r)
  end.

(** The event loop: an exception raised by a handler is reported and the
    loop goes on with the state the handler left. *)
Definition run (evs : list Event) (w : World) : World :=
  fold_left (fun w ev => fst (dispatch ev w)) evs w.

(** [n] timer ticks in a row. *)
Definition ticks (n : N) (self : Canvas) : Canvas :=
  N.iter n update_transforms self.

End Sandbox.

(** * Notions the properties are stated with *)

(** The sizes a resize event of the toolkit carries: non-negative C ints. *)
Definition window_size (width height : Z) : Prop :=
  0 <= width < 2 ^ 31 /\ 0 <= height < 2 ^ 31.

(** [width / float(height)] in binary64, both sizes converted exactly. *)
Definition aspect_ratio (width height : Z) : float :=
  (Binary64.dyadic width 0 / Binary64.dyadic height 0)%float.

Section Notions.
Context {L : Library}.

(** The angles are equal, and the model matrix is the identity of
    [init_transforms] (angle 0.0) or the pair of rotations by that angle. *)
Definition angles_inv (self : Canvas) : Prop :=
  theta self = phi self
  /\ (model self = eye /\ theta self = 0%float
      \/ model self = rotate (rotate eye (theta self) 0 0 1) (theta self) 0 1 0).

(** The mesh arrays, the index buffer and the three bindings made in
    [Canvas.__init__] as a handler finds them. *)
Definition assets (w : World) :=
  (positions w, faces w, normals w, texcoords w, faces_buffer w,
   variables (program (the_canvas w)) !! "a_position",
   variables (program (the_canvas w)) !! "a_texcoord",
   variables (program (the_canvas w)) !! "u_texture").

(** The texts in the two editors. *)
Definition editors (w : World) : string * string :=
  (vertEdit (window w), fragEdit (window w)).

End Notions.

(** What a click on the button makes of the source pair compiled last, given
    the texts in the two editors: the vertex text replaces its stage when it
    builds with the fragment text compiled last, and only then the fragment
    text replaces its stage when it builds with the new vertex text. *)
Definition click {L : Library} (editors compiled : string * string)
  : string * string :=
  match glsl_build (fst editors) (snd compiled) with
  | inl _ => compiled
  | inr _ =>
      match glsl_build (fst editors) (snd editors) with
      | inl _ => (fst editors, snd compiled)
      | inr _ => editors
      end
  end.

(** The source pair last compiled successfully along a sequence of events,
    replayed from the texts in the two editors and the pair compiled before:
    an edit changes an editor's text only, a click on the button compiles. *)
Fixpoint last_compiled {L : Library} (evs : list Event)
    (editors compiled : string * string) : string * string :=
  match evs with
  | [] => compiled
  | EditVert text :: evs => last_compiled evs (text, snd editors) compiled
  | EditFrag text :: evs => last_compiled evs (fst editors, text) compiled
  | CompileClicked :: evs => last_compiled evs editors (click editors compiled)
  | _ :: evs => last_compiled evs editors compiled
  end.

(** * A symbolic library

    An instance of [Library] on which the handlers can be run: matrices are
    the terms built by the transform calls; a shader pair compiles unless one
    of its sources is empty, and links unless the fragment source names the
    varying [v_texcoord] and the vertex source does not; a frame records what
    was drawn. *)
Module Sym.

Inductive mat : Type :=
  | Eye
  | Translate (m : mat) (x y z : Z)
  | Rotate (m : mat) (angle : float) (x y z : Z)
  | Perspective (fovy aspect znear zfar : float).

Definition mentions (name source : string) : bool :=
  match String.index 0 name source with
  | Some _ => true
  | None => false
  end.

Definition build (vert frag : string) : string + (string * string) :=
  if (String.eqb vert "" || String.eqb frag "")%bool
  then inl "ERROR: 0:1: syntax error, unexpected end of file"
  else if (mentions "v_texcoord" frag && negb (mentions "v_texcoord" vert))%bool
  then inl "ERROR: linking: varying v_texcoord is read but not written"
  else inr (vert, frag).

#[export] Instance lib : Library := {|
  ndarray := list Z;
  mat4 := mat;
  eye := Eye;
  translate := Translate;
  rotate := Rotate;
  perspective := Perspective;
  cube_obj := ([1; -1; 1], [0; 1; 2], [0; 0; 1], [0; 1]);
  crate := [255; 128; 0];
  random_colors := [7; 7; 7];
  astype_uint16 := fun a => a;
  binary := string * string;
  glsl_build := build;
  frame := (string * string) * gmap string (pvalue mat (list Z)) * list Z;
  rasterize := fun b vars index_buffer => (b, vars, index_buffer)
|}.

(** A fresh graphics context. *)
Definition gl0 : GLContext :=
  {| clear_color := (0, 0, 0, 0); depth_test := false;
     viewport := (0, 0, 400, 400); framebuffer := None |}.

(** The application right after start-up: the value of [main gl0]. *)
Definition started : World :=
  ltac:(let r := eval vm_compute in (main gl0) in
        match r with inr ?w => exact w end).

End Sym.

(** The started application after the user has emptied the fragment editor. *)
Definition emptied : World := fst (dispatch (EditFrag "") Sym.started).

(** * Binary64 arithmetic on exactly representable numbers

    Integers below [2^53] in absolute value, and their halves, are binary64
    numbers; the lemmas below compute with them from the definitions of
    [SpecFloat]: conversion of such an integer is exact, adding 0.5 to a
    half-integer below [2^52] is exact, and the quotient of two such integers
    depends on their ratio only. *)
Module Binary64Facts.
Import Binary64.

(** [p] followed by [n] zero bits: [p * 2^n]. *)
Definition shl (p : positive) (n : nat) : positive := Nat.iter n xO p.

Lemma shl_Z p n : Zpos (shl p n) = Zpos p * 2 ^ Z.of_nat n.
Proof.
  induction n as [|n IH].
  - simpl. lia.
  - rewrite Nat2Z.inj_succ, Z.pow_succ_r by lia.
    change (shl p (S n)) with (xO (shl p n)).
    revert IH. generalize (2 ^ Z.of_nat n) (shl p n). lia.
Qed.

Lemma shl_digits p n :
  Zpos (digits2_pos (shl p n)) = Zpos (digits2_pos p) + Z.of_nat n.
Proof.
  induction n as [|n IH].
  - simpl. lia.
  - change (shl p (S n)) with (xO (shl p n)). cbn [digits2_pos].
    rewrite Pos2Z.inj_succ, IH. lia.
Qed.

Lemma shl_shl p n m : shl (shl p n) m = shl p (m + n).
Proof. unfold shl. now rewrite Nat.iter_add. Qed.

Lemma Pos_iter_shl p d : Pos.iter xO p d = shl p (Pos.to_nat d).
Proof. unfold shl. now rewrite Pos2Nat.inj_iter. Qed.

(** [digits2_pos p] is the number of bits of [p]. *)
Lemma digits2_bounds p :
  2 ^ (Zpos (digits2_pos p) - 1) <= Zpos p < 2 ^ Zpos (digits2_pos p).
Proof.
  induction p as [p IH|p IH|]; cbn [digits2_pos].
  - rewrite Pos2Z.inj_succ.
    replace (Z.succ (Zpos (digits2_pos p)) - 1) with (Z.succ (Zpos (digits2_pos p) - 1)) by lia.
    rewrite !Z.pow_succ_r by lia.
    destruct IH as [Hlo Hhi]. revert Hlo Hhi.
    generalize (2 ^ (Zpos (digits2_pos p) - 1)) (2 ^ Zpos (digits2_pos p)). lia.
  - rewrite Pos2Z.inj_succ.
    replace (Z.succ (Zpos (digits2_pos p)) - 1) with (Z.succ (Zpos (digits2_pos p) - 1)) by lia.
    rewrite !Z.pow_succ_r by lia.
    destruct IH as [Hlo Hhi]. revert Hlo Hhi.
    generalize (2 ^ (Zpos (digits2_pos p) - 1)) (2 ^ Zpos (digits2_pos p)). lia.
  - simpl. lia.
Qed.

Lemma digits2_le p k : 0 <= k -> Zpos p < 2 ^ k -> Zpos (digits2_pos p) <= k.
Proof.
  intros Hk Hp. destruct (Z_le_gt_dec (Zpos (digits2_pos p)) k) as [|Hgt]; [assumption|].
  pose proof (digits2_bounds p) as [Hlo _].
  assert (2 ^ k <= 2 ^ (Zpos (digits2_pos p) - 1)) by (apply Z.pow_le_mono_r; lia).
  lia.
Qed.

Lemma digits2_unique p k :
  2 ^ (k - 1) <= Zpos p < 2 ^ k -> Zpos (digits2_pos p) = k.
Proof.
  intros [Hlo Hhi].
  assert (0 < k).
  { destruct (Z_lt_le_dec 0 k); [assumption|].
    assert (2 ^ k <= 2 ^ 0) by (apply Z.pow_le_mono_r; lia). simpl in *. lia. }
  pose proof (digits2_bounds p) as [Hlo' Hhi'].
  destruct (Z.lt_trichotomy (Zpos (digits2_pos p)) k) as [Hlt|[Heq|Hgt]]; [|assumption|].
  - assert (2 ^ Zpos (digits2_pos p) <= 2 ^ (k - 1)) by (apply Z.pow_le_mono_r; lia). lia.
  - assert (2 ^ k <= 2 ^ (Zpos (digits2_pos p) - 1)) by (apply Z.pow_le_mono_r; lia). lia.
Qed.

(** The binary iteration of [SpecFloat] is plain iteration. *)
Lemma iter_pos_nat {A} (f : A -> A) p x :
  SpecFloat.iter_pos f p x = Nat.iter (Pos.to_nat p) f x.
Proof.
  revert x. induction p as [p IH|p IH|]; intros x; cbn [SpecFloat.iter_pos].
  - rewrite !IH, Pos2Nat.inj_xI, <- Nat.iter_add, <- Nat.iter_succ_r.
    f_equal. lia.
  - rewrite !IH, Pos2Nat.inj_xO, <- Nat.iter_add. f_equal. lia.
  - reflexivity.
Qed.

Ltac f64_lia := unfold fexp, SpecFloat.emin, prec, emax in *; lia.

(** The shift record of a mantissa with nothing shifted out yet. *)
Definition exact (m : Z) : shr_record := Build_shr_record m false false.

Lemma shr_1_shl p n :
  Nat.iter n shr_1 (exact (Zpos (shl p n))) = exact (Zpos p).
Proof.
  induction n as [|n IH].
  - reflexivity.
  - rewrite Nat.iter_succ_r. change (shl p (S n)) with (xO (shl p n)).
    cbn [shr_1 exact orb]. exact IH.
Qed.

Lemma shr_exact p n e :
  shr (exact (Zpos (shl p n))) e (Z.of_nat n)
  = (exact (Zpos p), e + Z.of_nat n).
Proof.
  destruct n as [|n].
  - simpl. f_equal. lia.
  - change (Z.of_nat (S n)) with (Zpos (Pos.of_succ_nat n)). cbn [shr].
    now rewrite iter_pos_nat, SuccNat2Pos.id_succ, shr_1_shl.
Qed.

(** A mantissa of exactly [prec] bits followed by [n] zero bits rounds to
    itself: nothing is lost when the zero bits are shifted out. *)
Lemma binary_round_aux_exact s M n e :
  Zpos (digits2_pos M) = prec ->
  emin <= e + Z.of_nat n <= emax - prec ->
  binary_round_aux prec emax s (Zpos (shl M n)) e loc_Exact
  = S754_finite s M (e + Z.of_nat n).
Proof.
  intros HM He. unfold binary_round_aux, shr_fexp.
  cbn [Zdigits2 shr_record_of_loc]. rewrite shl_digits, HM.
  replace (fexp prec emax (prec + Z.of_nat n + e) - e) with (Z.of_nat n)
    by f64_lia.
  fold (exact (Zpos (shl M n))). rewrite shr_exact.
  cbn [exact shr_m loc_of_shr_record round_nearest_even Zdigits2 shr_record_of_loc].
  rewrite HM.
  replace (fexp prec emax (prec + (e + Z.of_nat n)) - (e + Z.of_nat n)) with 0
    by f64_lia.
  cbn [shr shr_m].
  destruct (Z.leb_spec (e + Z.of_nat n) (emax - prec)); [reflexivity|lia].
Qed.

(** The canonical binary64 representation of [p * 2^e] for a mantissa [p]
    that fits in [prec] bits. *)
Definition canon_m (p : positive) : positive :=
  shl p (Z.to_nat (prec - Zpos (digits2_pos p))).
Definition canon_e (p : positive) (e : Z) : Z :=
  e + Zpos (digits2_pos p) - prec.

Lemma canon_m_digits p :
  Zpos (digits2_pos p) <= prec -> Zpos (digits2_pos (canon_m p)) = prec.
Proof. intros H. unfold canon_m. rewrite shl_digits. lia. Qed.

(** Rounding [p * 2^j * 2^e] for [p] below [2^prec] gives the canonical
    representation of that number, whatever the share of [j] and [e]. *)
Lemma binary_round_shl s p j e :
  Zpos (digits2_pos p) <= prec ->
  emin <= canon_e p (e + Z.of_nat j) <= emax - prec ->
  binary_round prec emax s (shl p j) e
  = S754_finite s (canon_m p) (canon_e p (e + Z.of_nat j)).
Proof.
  intros Hd He. unfold canon_e in *. unfold binary_round, shl_align.
  rewrite shl_digits.
  set (d := Zpos (digits2_pos p)) in *.
  replace (fexp prec emax (d + Z.of_nat j + e) - e) with (d + Z.of_nat j - prec)
    by f64_lia.
  replace (fexp prec emax (d + Z.of_nat j + e)) with (e + Z.of_nat j + d - prec)
    by f64_lia.
  destruct (d + Z.of_nat j - prec) as [|q|q] eqn:Hq.
  - replace (shl p j) with (shl (canon_m p) 0).
    + rewrite binary_round_aux_exact.
      * f_equal. simpl. f64_lia.
      * now apply canon_m_digits.
      * simpl. f64_lia.
    + unfold canon_m. fold d. rewrite shl_shl. f_equal. f64_lia.
  - replace (shl p j) with (shl (canon_m p) (Pos.to_nat q)).
    + rewrite binary_round_aux_exact.
      * f_equal. f64_lia.
      * now apply canon_m_digits.
      * f64_lia.
    + unfold canon_m. fold d. rewrite shl_shl. f_equal. f64_lia.
  - rewrite Pos_iter_shl, shl_shl.
    replace (shl p (Pos.to_nat q + j)) with (shl (canon_m p) 0).
    + rewrite binary_round_aux_exact.
      * f_equal. simpl. f64_lia.
      * now apply canon_m_digits.
      * simpl. f64_lia.
    + unfold canon_m. fold d. rewrite shl_shl. f_equal. f64_lia.
Qed.

Lemma canon_valid s p e :
  Zpos (digits2_pos p) <= prec ->
  emin <= canon_e p e <= emax - prec ->
  valid_binary (S754_finite s (canon_m p) (canon_e p e)) = true.
Proof.
  intros Hd He. unfold SpecFloat.valid_binary, bounded, canonical_mantissa.
  rewrite canon_m_digits by assumption.
  apply andb_true_intro; split; [apply Z.eqb_eq | apply Z.leb_le]; f64_lia.
Qed.

Lemma canon_m_Z p :
  Zpos (digits2_pos p) <= prec ->
  Zpos (canon_m p) = Zpos p * 2 ^ (prec - Zpos (digits2_pos p)).
Proof. intros H. unfold canon_m. rewrite shl_Z, Z2Nat.id by lia. reflexivity. Qed.

(** [binary_normalize] of a positive integer mantissa below [2^prec]. *)
Lemma binary_normalize_pos p e :
  Zpos p < 2 ^ prec ->
  emin <= canon_e p e <= emax - prec ->
  binary_normalize prec emax (Zpos p) e false
  = S754_finite false (canon_m p) (canon_e p e).
Proof.
  intros Hp He. cbn [binary_normalize].
  change p with (shl p 0) at 1. rewrite binary_round_shl.
  - do 2 f_equal. simpl. lia.
  - apply digits2_le; [unfold prec; lia | assumption].
  - simpl Z.of_nat. now rewrite Z.add_0_r.
Qed.

Lemma canon_e_range p e :
  Zpos p < 2 ^ prec -> -1 <= e <= 0 ->
  emin <= canon_e p e <= emax - prec.
Proof.
  intros Hp He. pose proof (digits2_le p prec ltac:(unfold prec; lia) Hp).
  pose proof (Pos2Z.is_pos (digits2_pos p)). unfold canon_e. f64_lia.
Qed.

Lemma canon_value p e :
  Zpos (digits2_pos p) <= prec ->
  (inject_Z (Zpos (canon_m p)) * Qpower 2 (canon_e p e) == inject_Z (Zpos p) * Qpower 2 e)%Q.
Proof.
  intros Hd. rewrite canon_m_Z by assumption. unfold canon_e.
  set (k := prec - Zpos (digits2_pos p)).
  replace (e + Zpos (digits2_pos p) - prec) with (e + - k) by (unfold k; lia).
  rewrite inject_Z_mult, Qpower_plus by discriminate.
  rewrite Qpower_opp.
  assert (Hk : (inject_Z (2 ^ k) == Qpower 2 k)%Q).
  { rewrite Zpower_Qpower by (unfold k; lia). reflexivity. }
  rewrite Hk.
  assert (Hnz : ~ (Qpower 2 k == 0)%Q).
  { apply Qpower_not_0. discriminate. }
  field. exact Hnz.
Qed.

(** The primitive float [dyadic p e] for [p] below [2^prec]. *)
Lemma Prim2SF_dyadic p e :
  Zpos p < 2 ^ prec -> -1 <= e <= 0 ->
  Prim2SF (dyadic (Zpos p) e) = S754_finite false (canon_m p) (canon_e p e).
Proof.
  intros Hp He. unfold dyadic.
  rewrite binary_normalize_pos by (try apply canon_e_range; assumption).
  apply Prim2SF_SF2Prim, canon_valid.
  - apply digits2_le; [unfold prec; lia | assumption].
  - now apply canon_e_range.
Qed.

Lemma Prim2SF_half : Prim2SF 0.5 = S754_finite false (shl 1 52) (-53).
Proof. vm_compute. reflexivity. Qed.

Lemma shl_align_canon p :
  Zpos p < 2 ^ prec ->
  fst (shl_align (canon_m p) (canon_e p (-1)) (-53)) = shl p 52.
Proof.
  intros Hp.
  pose proof (digits2_le p prec ltac:(unfold prec; lia) Hp) as Hd.
  pose proof (Pos2Z.is_pos (digits2_pos p)) as Hd0.
  unfold shl_align, canon_e, canon_m.
  destruct (-53 - (-1 + Zpos (digits2_pos p) - prec)) as [|q|q] eqn:Hq; cbn [fst].
  - f_equal. f64_lia.
  - f64_lia.
  - rewrite Pos_iter_shl, shl_shl. f_equal. f64_lia.
Qed.

Lemma shl_add p q n : (shl p n + shl q n)%positive = shl (p + q) n.
Proof.
  apply Pos2Z.inj. rewrite Pos2Z.inj_add, !shl_Z, Pos2Z.inj_add. ring.
Qed.

(** Adding 0.5 to the binary64 number [n/2] is exact below [2^52]. *)
Lemma dyadic_add_half p :
  Zpos p + 1 < 2 ^ prec ->
  (dyadic (Zpos p) (-1) + 0.5)%float = dyadic (Zpos p + 1) (-1).
Proof.
  intros Hp. apply Prim2SF_inj.
  rewrite FloatAxioms.add_spec, Prim2SF_half.
  change (Zpos p + 1) with (Zpos (p + 1)).
  rewrite !Prim2SF_dyadic by lia.
  unfold SF64add, SFadd.
  assert (Hlo : canon_e p (-1) >= -53).
  { pose proof (Pos2Z.is_pos (digits2_pos p)). unfold canon_e. f64_lia. }
  rewrite Z.min_r by lia.
  rewrite shl_align_canon by lia.
  change (fst (shl_align (shl 1 52) (-53) (-53))) with (shl 1 52).
  cbn [cond_Zopp]. rewrite <- Pos2Z.inj_add, shl_add.
  cbn [binary_normalize]. rewrite binary_round_shl.
  - reflexivity.
  - apply digits2_le; [unfold prec; lia | lia].
  - replace (-53 + Z.of_nat 52) with (-1) by lia.
    apply canon_e_range; lia.
Qed.

(** Position of the remainder [r] of a division by [Y] relative to [Y/2]. *)
Definition locate (r Y : Z) : location :=
  if r =? 0 then loc_Exact else loc_Inexact (2 * r ?= Y).

(** [X / Y] lies in [[m, m+1)] at location [l]. *)
Definition approx (X Y m : Z) (l : location) : Prop :=
  0 < Y /\ exists r, X = m * Y + r /\ 0 <= r < Y /\ l = locate r Y.

Lemma new_location_locate Y r :
  0 < Y -> 0 <= r < Y -> new_location Y r = locate r Y.
Proof.
  intros HY Hr. unfold new_location, new_location_even, new_location_odd, locate.
  destruct (Z.even Y) eqn:HE; destruct (r =? 0) eqn:H0; try reflexivity.
  f_equal.
  assert (HO : Z.odd Y = true) by (rewrite <- Z.negb_even, HE; reflexivity).
  apply Z.odd_spec in HO. destruct HO as [k Hk].
  destruct (Z.compare_spec (2 * r + 1) Y); destruct (Z.compare_spec (2 * r) Y);
    try reflexivity; lia.
Qed.

Lemma approx_div X Y :
  0 <= X -> 0 < Y ->
  approx X Y (fst (Z.div_eucl X Y)) (new_location Y (snd (Z.div_eucl X Y))).
Proof.
  intros HX HY. pose proof (Z_div_mod X Y ltac:(lia)) as H.
  destruct (Z.div_eucl X Y) as [q r]. cbn [fst snd]. destruct H as [H1 H2].
  split; [assumption|]. exists r. repeat split; try lia.
  now apply new_location_locate.
Qed.

Lemma locate_inv r Y l :
  l = locate r Y ->
  match l with
  | loc_Exact => r = 0
  | loc_Inexact c => r <> 0 /\ c = (2 * r ?= Y)
  end.
Proof.
  unfold locate. destruct (Z.eqb_spec r 0); intros ->; auto.
Qed.

(** Equal ratios have the same integer part and the same location. *)
Lemma approx_unique X Y m l X' Y' m' l' :
  approx X Y m l -> approx X' Y' m' l' -> X * Y' = X' * Y ->
  m = m' /\ l = l'.
Proof.
  intros [HY (r & HX & Hr & Hl)] [HY' (r' & HX' & Hr' & Hl')] Heq.
  subst X X'.
  assert (Hm : m = m').
  { destruct (Z.lt_trichotomy m m') as [Hlt|[?|Hgt]]; [exfalso|assumption|exfalso].
    - assert (m + 1 <= m') by lia.
      assert ((m + 1) * (Y * Y') <= m' * (Y * Y')) by (apply Z.mul_le_mono_nonneg_r; nia).
      assert (r * Y' < Y * Y') by nia. nia.
    - assert (m' + 1 <= m) by lia.
      assert ((m' + 1) * (Y * Y') <= m * (Y * Y')) by (apply Z.mul_le_mono_nonneg_r; nia).
      assert (r' * Y < Y * Y') by nia. nia. }
  split; [assumption|]. subst m' l l'.
  assert (Hr2 : r * Y' = r' * Y) by nia.
  unfold locate.
  destruct (Z.eqb_spec r 0), (Z.eqb_spec r' 0); try reflexivity; try nia.
  f_equal.
  destruct (Z.compare_spec (2 * r) Y), (Z.compare_spec (2 * r') Y'); try reflexivity; nia.
Qed.

Lemma locate_low r Y :
  0 <= r < Y -> locate r (2 * Y) = if r =? 0 then loc_Exact else loc_Inexact Lt.
Proof.
  intros Hr. unfold locate. destruct (Z.eqb_spec r 0); [reflexivity|].
  f_equal. apply Z.compare_lt_iff. lia.
Qed.

Lemma locate_high r Y :
  0 <= r < Y ->
  locate (Y + r) (2 * Y) = loc_Inexact (if r =? 0 then Eq else Gt).
Proof.
  intros Hr. unfold locate. destruct (Z.eqb_spec (Y + r) 0); [lia|].
  f_equal. destruct (Z.eqb_spec r 0).
  - apply Z.compare_eq_iff. lia.
  - apply Z.compare_gt_iff. lia.
Qed.

Lemma shr_1_record m rb sb :
  0 <= m ->
  shr_1 (Build_shr_record m rb sb)
  = Build_shr_record (m / 2) (m mod 2 =? 1) (orb rb sb).
Proof.
  intros Hm.
  assert (Hdiv : m = 2 * (m / 2) + m mod 2) by (apply Z.div_mod; lia).
  pose proof (Z.mod_pos_bound m 2 ltac:(lia)) as Hmod.
  revert Hdiv Hmod. generalize (m / 2) (m mod 2). intros h b Hdiv Hmod.
  destruct m as [|[p|p|]|]; cbn [shr_1]; try lia.
  - replace h with 0 by lia. replace b with 0 by lia. reflexivity.
  - replace h with (Zpos p) by lia. replace b with 1 by lia. reflexivity.
  - replace h with (Zpos p) by lia. replace b with 0 by lia. reflexivity.
  - replace h with 0 by lia. replace b with 1 by lia. reflexivity.
Qed.

(** One right shift halves the quotient and keeps track of the location. *)
Lemma shr_1_approx X Y m l :
  approx X Y m l -> 0 <= m ->
  exists l', shr_1 (shr_record_of_loc m l) = shr_record_of_loc (m / 2) l'
             /\ approx X (2 * Y) (m / 2) l'.
Proof.
  intros [HY (r & HX & Hr & Hl)] Hm.
  assert (Hdiv : m = 2 * (m / 2) + m mod 2) by (apply Z.div_mod; lia).
  assert (Hmod : m mod 2 = 0 \/ m mod 2 = 1)
    by (pose proof (Z.mod_pos_bound m 2 ltac:(lia)); lia).
  exists (locate (m mod 2 * Y + r) (2 * Y)). split.
  - assert (Hshape : shr_record_of_loc m l
                     = Build_shr_record m (shr_r (shr_record_of_loc m l))
                                          (shr_s (shr_record_of_loc m l)))
      by (destruct l as [|[]]; reflexivity).
    rewrite Hshape, shr_1_record by assumption.
    subst l. unfold locate at 1 2.
    destruct Hmod as [Hb|Hb]; rewrite Hb.
    + rewrite Z.mul_0_l, Z.add_0_l, locate_low by assumption.
      destruct (Z.eqb_spec r 0); [reflexivity|].
      destruct (2 * r ?= Y); reflexivity.
    + rewrite Z.mul_1_l, locate_high by assumption.
      destruct (Z.eqb_spec r 0); [reflexivity|].
      destruct (2 * r ?= Y); reflexivity.
  - split; [lia|]. exists (m mod 2 * Y + r). repeat split; nia.
Qed.

(** The first shift of [binary_round_aux] on a quotient of 53 or 54 bits:
    it leaves 53 bits and the location of the exact quotient. *)
Lemma shr_fexp_quot X Y Q l e :
  approx X Y Q l -> 2 ^ 52 <= Q < 2 ^ 54 -> emin <= e ->
  exists n m l',
    (n = 0 \/ n = 1)
    /\ shr_fexp prec emax Q e l = (shr_record_of_loc m l', e + n)
    /\ approx X (2 ^ n * Y) m l'
    /\ 2 ^ 52 <= m < 2 ^ 53.
Proof.
  intros HA HQ He. destruct Q as [|q|q]; try lia.
  unfold shr_fexp. cbn [Zdigits2].
  destruct (Z_lt_le_dec (Zpos q) (2 ^ 53)) as [Hlt|Hge].
  - exists 0, (Zpos q), l. rewrite (digits2_unique q 53) by (simpl in *; lia).
    replace (fexp prec emax (53 + e) - e) with 0 by f64_lia.
    cbn [shr]. rewrite Z.add_0_r, Z.pow_0_r, Z.mul_1_l.
    split; [now left|]. split; [reflexivity|]. split; [assumption|lia].
  - destruct (shr_1_approx _ _ _ _ HA ltac:(lia)) as (l' & Hshr & HA').
    exists 1, (Zpos q / 2), l'. rewrite (digits2_unique q 54) by (simpl in *; lia).
    replace (fexp prec emax (54 + e) - e) with 1 by f64_lia.
    cbn [shr SpecFloat.iter_pos]. rewrite Hshr, Z.pow_1_r.
    split; [now right|]. split; [reflexivity|]. split; [assumption|]. split.
    + apply Z.div_le_lower_bound; lia.
    + apply Z.div_lt_upper_bound; lia.
Qed.

(** The integer division at the core of [SFdiv], for two mantissas of
    [prec] bits. *)
Lemma SFdiv_core_approx M N eM eN :
  Zpos (digits2_pos M) = prec -> Zpos (digits2_pos N) = prec ->
  emin <= eM - eN - prec ->
  exists Q l,
    SFdiv_core_binary prec emax (Zpos M) eM (Zpos N) eN = (Q, eM - eN - prec, l)
    /\ approx (Zpos M * 2 ^ prec) (Zpos N) Q l.
Proof.
  intros HM HN He. unfold SFdiv_core_binary. cbn [Zdigits2]. rewrite HM, HN.
  cbv zeta.
  replace (Z.min (fexp prec emax (prec + eM - (prec + eN))) (eM - eN))
    with (eM - eN - prec) by f64_lia.
  replace (eM - eN - (eM - eN - prec)) with prec by lia.
  change (match prec with Z0 => Zpos M | Zpos _ => Z.shiftl (Zpos M) prec | Zneg _ => 0 end)
    with (Z.shiftl (Zpos M) prec).
  rewrite Z.shiftl_mul_pow2 by (unfold prec; lia).
  pose proof (approx_div (Zpos M * 2 ^ prec) (Zpos N) ltac:(unfold prec; lia) ltac:(lia)) as HA.
  destruct (Z.div_eucl (Zpos M * 2 ^ prec) (Zpos N)) as [Q R]. cbn [fst snd] in HA.
  exists Q, (new_location (Zpos N) R). split; [reflexivity | exact HA].
Qed.

Lemma approx_scale X Y m l c :
  0 < c -> 0 < Y -> approx (X * c) (Y * c) m l -> approx X Y m l.
Proof.
  intros Hc HY [_ (r & HX & Hr & Hl)].
  split; [assumption|]. exists (X - m * Y).
  assert (Hrc : r = (X - m * Y) * c) by nia.
  assert (0 <= X - m * Y < Y) by nia.
  repeat split; try lia.
  subst l. unfold locate. rewrite Hrc.
  destruct (Z.eqb_spec ((X - m * Y) * c) 0), (Z.eqb_spec (X - m * Y) 0);
    try reflexivity; try nia.
  f_equal.
  destruct (Z.compare_spec (2 * ((X - m * Y) * c)) (Y * c)),
    (Z.compare_spec (2 * (X - m * Y)) Y); try reflexivity; nia.
Qed.

(** What remains of [binary_round_aux] after its first shift. *)
Definition round_tail (s : bool) (mrs : shr_record) (e : Z) : spec_float :=
  let '(mrs'', e'') :=
    shr_fexp prec emax (round_nearest_even (shr_m mrs) (loc_of_shr_record mrs))
             e loc_Exact in
  match shr_m mrs'' with
  | Z0 => S754_zero s
  | Zpos m => if e'' <=? emax - prec then S754_finite s m e'' else S754_infinity s
  | Zneg _ => S754_nan
  end.

Lemma binary_round_aux_tail s mx ex lx :
  binary_round_aux prec emax s mx ex lx
  = round_tail s (fst (shr_fexp prec emax mx ex lx)) (snd (shr_fexp prec emax mx ex lx)).
Proof.
  unfold binary_round_aux, round_tail.
  destruct (shr_fexp prec emax mx ex lx) as [mrs e]. reflexivity.
Qed.

Definition of_pos (p : positive) : spec_float :=
  S754_finite false (canon_m p) (canon_e p 0).

Lemma canon_m_bounds p :
  Zpos (digits2_pos p) <= prec -> 2 ^ 52 <= Zpos (canon_m p) < 2 ^ 53.
Proof.
  intros Hd. pose proof (digits2_bounds (canon_m p)) as H.
  rewrite canon_m_digits in H by assumption. exact H.
Qed.

(** [SFdiv] of two exactly converted integers [p] and [q]: the rounding of
    the integer part [m] of [p * 2^t / q], at the exponent [-t] for which
    [m] has 53 bits, and of the location of the rest. *)
Lemma SFdiv_canon p q :
  Zpos p < 2 ^ prec -> Zpos q < 2 ^ prec ->
  exists t m l,
    0 <= t
    /\ SF64div (of_pos p) (of_pos q) = round_tail false (shr_record_of_loc m l) (- t)
    /\ approx (Zpos p * 2 ^ t) (Zpos q) m l
    /\ 2 ^ 52 <= m < 2 ^ 53.
Proof.
  intros Hp Hq.
  pose proof (digits2_le p prec ltac:(unfold prec; lia) Hp) as Hdp.
  pose proof (digits2_le q prec ltac:(unfold prec; lia) Hq) as Hdq.
  pose proof (Pos2Z.is_pos (digits2_pos p)) as Hdp0.
  pose proof (Pos2Z.is_pos (digits2_pos q)) as Hdq0.
  pose proof (canon_m_bounds p Hdp) as HM.
  pose proof (canon_m_bounds q Hdq) as HN.
  destruct (SFdiv_core_approx (canon_m p) (canon_m q) (canon_e p 0) (canon_e q 0))
    as (Q & l & Hcore & HA).
  { now apply canon_m_digits. }
  { now apply canon_m_digits. }
  { unfold canon_e. f64_lia. }
  assert (HQ : 2 ^ 52 <= Q < 2 ^ 54).
  { destruct HA as [_ (r & HX & Hr & _)]. change (2 ^ prec) with (2 ^ 53) in HX.
    revert HX Hr HM HN.
    generalize (Zpos (canon_m p)) (Zpos (canon_m q)).
    change (2 ^ 52) with 4503599627370496.
    change (2 ^ 53) with 9007199254740992.
    change (2 ^ 54) with 18014398509481984.
    intros M N HX Hr HM HN. nia. }
  destruct (shr_fexp_quot _ _ Q l (canon_e p 0 - canon_e q 0 - prec) HA HQ)
    as (n & m & l' & Hn & Hshr & HA' & Hm).
  { unfold canon_e. f64_lia. }
  set (a := prec - Zpos (digits2_pos p)).
  set (b := prec - Zpos (digits2_pos q)).
  exists (a + prec - b - n), m, l'.
  split; [unfold a, b; f64_lia|].
  split.
  - unfold SF64div, SFdiv, of_pos. rewrite Hcore. cbn [xorb].
    rewrite binary_round_aux_tail, Hshr. cbn [fst snd].
    f_equal. unfold canon_e, a, b. lia.
  - split; [|assumption].
    apply (approx_scale _ _ _ _ (2 ^ (b + n))).
    + apply Z.pow_pos_nonneg; unfold b; f64_lia.
    + lia.
    + rewrite !canon_m_Z in HA' by assumption. fold a b in HA'.
      replace (Zpos p * 2 ^ (a + prec - b - n) * 2 ^ (b + n))
        with (Zpos p * 2 ^ a * 2 ^ prec).
      * replace (Zpos q * 2 ^ (b + n)) with (2 ^ n * (Zpos q * 2 ^ b)); [exact HA'|].
        rewrite Z.pow_add_r by (unfold b; f64_lia). ring.
      * rewrite <- !Z.mul_assoc, <- !Z.pow_add_r by (unfold a, b; f64_lia).
        do 2 f_equal. lia.
Qed.

(** Equal ratios are brought to 53 bits by the same power of 2. *)
Lemma scale_unique p1 q1 p2 q2 t1 t2 :
  0 < p1 -> 0 < q1 -> 0 < p2 -> 0 < q2 -> 0 <= t1 -> t1 < t2 ->
  p1 * q2 = p2 * q1 ->
  2 ^ 52 * q1 <= p1 * 2 ^ t1 ->
  p2 * 2 ^ t2 < 2 ^ 53 * q2 ->
  False.
Proof.
  intros Hp1 Hq1 Hp2 Hq2 Ht1 Ht Heq Hlo Hhi.
  replace t2 with (t1 + (t2 - t1)) in Hhi by lia.
  rewrite Z.pow_add_r in Hhi by lia.
  assert (HK : 2 ^ 1 <= 2 ^ (t2 - t1)) by (apply Z.pow_le_mono_r; lia).
  assert (HA : 0 < 2 ^ t1) by (apply Z.pow_pos_nonneg; lia).
  change (2 ^ 1) with 2 in HK. change (2 ^ 53) with (2 * 2 ^ 52) in Hhi.
  revert Hlo Hhi HK HA.
  generalize (2 ^ t1) (2 ^ (t2 - t1)) (2 ^ 52). intros A K C Hlo Hhi HK HA.
  assert (H1 : (p2 * (A * K)) * q1 < (2 * C * q2) * q1) by (apply Z.mul_lt_mono_pos_r; lia).
  assert (H2 : (C * q1) * (K * q2) <= (p1 * A) * (K * q2)) by (apply Z.mul_le_mono_nonneg_r; nia).
  assert (H3 : (p2 * (A * K)) * q1 = (p1 * q2) * (A * K)) by (rewrite Heq; ring).
  assert (H4 : 2 * (C * q1 * q2) <= K * (C * q1 * q2)).
  { apply Z.mul_le_mono_nonneg_r; [|assumption]. nia. }
  nia.
Qed.

(** Binary64 division of two exactly represented positive integers depends
    only on their ratio. *)
Lemma SFdiv_ratio p1 q1 p2 q2 :
  Zpos p1 < 2 ^ prec -> Zpos q1 < 2 ^ prec ->
  Zpos p2 < 2 ^ prec -> Zpos q2 < 2 ^ prec ->
  Zpos p1 * Zpos q2 = Zpos p2 * Zpos q1 ->
  SF64div (of_pos p1) (of_pos q1) = SF64div (of_pos p2) (of_pos q2).
Proof.
  intros Hp1 Hq1 Hp2 Hq2 Heq.
  destruct (SFdiv_canon p1 q1 Hp1 Hq1) as (t1 & m1 & l1 & Ht1 & -> & HA1 & Hm1).
  destruct (SFdiv_canon p2 q2 Hp2 Hq2) as (t2 & m2 & l2 & Ht2 & -> & HA2 & Hm2).
  assert (Hb1 : 2 ^ 52 * Zpos q1 <= Zpos p1 * 2 ^ t1 < 2 ^ 53 * Zpos q1).
  { destruct HA1 as [_ (r & HX & Hr & _)]. rewrite HX. nia. }
  assert (Hb2 : 2 ^ 52 * Zpos q2 <= Zpos p2 * 2 ^ t2 < 2 ^ 53 * Zpos q2).
  { destruct HA2 as [_ (r & HX & Hr & _)]. rewrite HX. nia. }
  assert (Ht : t1 = t2).
  { destruct (Z.lt_trichotomy t1 t2) as [Hlt|[?|Hgt]]; [exfalso|assumption|exfalso].
    - apply (scale_unique (Zpos p1) (Zpos q1) (Zpos p2) (Zpos q2) t1 t2); lia.
    - apply (scale_unique (Zpos p2) (Zpos q2) (Zpos p1) (Zpos q1) t2 t1); lia. }
  subst t2.
  destruct (approx_unique _ _ _ _ _ _ _ _ HA1 HA2) as [-> ->]; [|reflexivity].
  transitivity (Zpos p1 * Zpos q2 * 2 ^ t1); [ring|]. rewrite Heq. ring.
Qed.
Lemma Prim2SF_zero : Prim2SF 0 = S754_zero false.
Proof. reflexivity. Qed.

Lemma dyadic_0 e : dyadic 0 e = 0%float.
Proof. reflexivity. Qed.

Lemma dyadic_nonzero p :
  Zpos p < 2 ^ prec -> (dyadic (Zpos p) 0 =? 0)%float = false.
Proof.
  intros Hp. rewrite FloatAxioms.eqb_spec, Prim2SF_dyadic, Prim2SF_zero by lia. reflexivity.
Qed.

(** Binary64 division of exactly converted window sizes depends only on
    their ratio. *)
Lemma dyadic_div_ratio w1 h1 w2 h2 :
  0 <= w1 < 2 ^ prec -> 0 < h1 < 2 ^ prec ->
  0 <= w2 < 2 ^ prec -> 0 < h2 < 2 ^ prec ->
  w1 * h2 = w2 * h1 ->
  (dyadic w1 0 / dyadic h1 0)%float = (dyadic w2 0 / dyadic h2 0)%float.
Proof.
  intros Hw1 Hh1 Hw2 Hh2 Heq. apply Prim2SF_inj. rewrite !FloatAxioms.div_spec.
  destruct h1 as [|q1|q1]; try lia. destruct h2 as [|q2|q2]; try lia.
  rewrite !(Prim2SF_dyadic _ 0) by lia.
  destruct w1 as [|p1|p1]; try lia.
  - assert (w2 = 0) by nia. subst w2. reflexivity.
  - destruct w2 as [|p2|p2]; try lia.
    rewrite !(Prim2SF_dyadic _ 0) by lia.
    apply SFdiv_ratio; lia.
Qed.

Lemma dyadic_value p e :
  Zpos p < 2 ^ prec -> -1 <= e <= 0 ->
  float_is (dyadic (Zpos p) e) (inject_Z (Zpos p) * Qpower 2 e).
Proof.
  intros Hp He. unfold float_is, float_value. rewrite Prim2SF_dyadic by assumption.
  eexists. split; [reflexivity|]. apply canon_value.
  apply digits2_le; [unfold prec; lia | assumption].
Qed.

Lemma halves_value n :
  0 <= n <= 2 ^ prec -> float_is (dyadic n (-1)) (n # 2).
Proof.
  intros Hn. destruct n as [|p|p]; try lia.
  - exists 0%Q. split; reflexivity.
  - destruct (Z.eq_dec (Zpos p) (2 ^ prec)) as [E|NE].
    + rewrite E. eexists. split; [vm_compute; reflexivity | reflexivity].
    + destruct (dyadic_value p (-1)) as (a & Ha & Hq); [lia | lia |].
      exists a. split; [assumption|]. rewrite Hq.
      unfold Qeq. simpl. lia.
Qed.

(** [n] additions of 0.5 starting from 0.0 are exact up to [2^52]. *)
Lemma halves_succ n :
  0 <= n < 2 ^ prec -> (dyadic n (-1) + 0.5)%float = dyadic (n + 1) (-1).
Proof.
  intros Hn. destruct n as [|p|p]; try lia.
  - reflexivity.
  - destruct (Z.eq_dec (Zpos p + 1) (2 ^ prec)) as [E|NE].
    + replace (Zpos p) with (2 ^ prec - 1) by lia. vm_compute. reflexivity.
    + apply dyadic_add_half. lia.
Qed.

(** At [2^52] the next binary64 number is 1 away: adding 0.5 rounds back. *)
Lemma halves_stall : (dyadic (2 ^ prec) (-1) + 0.5)%float = dyadic (2 ^ prec) (-1).
Proof. vm_compute. reflexivity. Qed.

Lemma digits2_mono p q :
  (p <= q)%positive -> Zpos (digits2_pos p) <= Zpos (digits2_pos q).
Proof.
  intros Hpq. pose proof (digits2_bounds p) as [Hp _].
  pose proof (digits2_bounds q) as [_ Hq].
  destruct (Z_le_gt_dec (Zpos (digits2_pos p)) (Zpos (digits2_pos q))) as [|Hgt];
    [assumption|].
  assert (2 ^ Zpos (digits2_pos q) <= 2 ^ (Zpos (digits2_pos p) - 1))
    by (apply Z.pow_le_mono_r; lia).
  lia.
Qed.

(** The binary64 order agrees with the order of the integers on canonical
    representations. *)
Lemma canon_lt p q e :
  (p < q)%positive -> Zpos q < 2 ^ prec ->
  SFltb (S754_finite false (canon_m p) (canon_e p e))
        (S754_finite false (canon_m q) (canon_e q e)) = true.
Proof.
  intros Hpq Hq.
  pose proof (digits2_mono p q ltac:(lia)) as Hd.
  pose proof (digits2_le q prec ltac:(unfold prec; lia) Hq) as Hdq.
  unfold SFltb, SFcompare, canon_e.
  destruct (Z.compare_spec (e + Zpos (digits2_pos p) - prec)
                           (e + Zpos (digits2_pos q) - prec)) as [E|E|E];
    [|reflexivity|lia].
  change (Pos.compare_cont Eq (canon_m p) (canon_m q))
    with (Pos.compare (canon_m p) (canon_m q)).
  assert (Hm : (canon_m p < canon_m q)%positive).
  { change (Zpos (canon_m p) < Zpos (canon_m q)). rewrite !canon_m_Z by lia.
    replace (Zpos (digits2_pos q)) with (Zpos (digits2_pos p)) by lia.
    apply Z.mul_lt_mono_pos_r; [apply Z.pow_pos_nonneg; lia | lia]. }
  apply Pos.compare_lt_iff in Hm. now rewrite Hm.
Qed.

Lemma halves_lt n :
  0 <= n < 2 ^ prec ->
  (dyadic n (-1) <? dyadic (n + 1) (-1))%float = true.
Proof.
  intros Hn. destruct n as [|p|p]; try lia.
  - reflexivity.
  - destruct (Z.eq_dec (Zpos p + 1) (2 ^ prec)) as [E|NE].
    + replace (Zpos p) with (2 ^ prec - 1) by lia. vm_compute. reflexivity.
    + rewrite FloatAxioms.ltb_spec. change (Zpos p + 1) with (Zpos (p + 1)).
      rewrite !Prim2SF_dyadic by lia. apply canon_lt; lia.
Qed.

Lemma halves_stall_ltb :
  (dyadic (2 ^ prec) (-1) <? dyadic (2 ^ prec) (-1) + 0.5)%float = false.
Proof. vm_compute. reflexivity. Qed.

End Binary64Facts.

(** * Facts about the Python expressions of the script *)

Lemma float_of_int_exact n :
  0 <= n < 2 ^ 53 -> float_of_int n = inr (Binary64.dyadic n 0).
Proof.
  intros Hn. unfold float_of_int, Binary64.dyadic.
  destruct n as [|p|p]; try lia; [reflexivity|].
  rewrite Binary64Facts.binary_normalize_pos; [reflexivity | exact (proj2 Hn) |].
  apply Binary64Facts.canon_e_range; [exact (proj2 Hn) | lia].
Qed.

Lemma int_truediv_float_exact a b :
  0 <= a < 2 ^ 53 -> 0 < b < 2 ^ 53 ->
  int_truediv_float a (Binary64.dyadic b 0) = inr (aspect_ratio a b).
Proof.
  intros Ha Hb. unfold int_truediv_float. rewrite float_of_int_exact by assumption.
  destruct b as [|q|q]; try lia.
  rewrite Binary64Facts.dyadic_nonzero by exact (proj2 Hb). reflexivity.
Qed.

Lemma int_truediv_float_zero a :
  0 <= a < 2 ^ 53 ->
  int_truediv_float a (Binary64.dyadic 0 0) = inl ZeroDivisionError.
Proof.
  intros Ha. unfold int_truediv_float. rewrite float_of_int_exact by assumption.
  reflexivity.
Qed.

Section Resize.
Context {L : Library}.

Lemma on_resize_nonzero width height (self : Canvas) (g : GLContext) :
  window_size width height -> height <> 0 ->
  on_resize (width, height) self g
  = (setitem "u_projection"
       (PMat (perspective 45%float (aspect_ratio width height) 2%float 10%float))
       (set_projection
          (perspective 45%float (aspect_ratio width height) 2%float 10%float) self),
     glViewport 0 0 width height g, Done).
Proof.
  intros [Hw Hh] Hnz. unfold on_resize.
  rewrite float_of_int_exact by lia.
  rewrite int_truediv_float_exact by lia. reflexivity.
Qed.

Lemma on_resize_zero width (self : Canvas) (g : GLContext) :
  0 <= width < 2 ^ 31 ->
  on_resize (width, 0) self g
  = (self, glViewport 0 0 width 0 g, Raised ZeroDivisionError).
Proof.
  intros Hw. unfold on_resize.
  rewrite float_of_int_exact by lia.
  rewrite int_truediv_float_zero by lia. reflexivity.
Qed.

End Resize.

Section Compile.
Context {L : Library}.

(** [on_compile] replaces the program of the canvas and nothing else, and
    the new program has the bindings of the old one. *)
Lemma on_compile_program (m : MainWindow) :
  exists p : Program,
    fst (on_compile m) = set_canvas (set_program p (canvas m)) m
    /\ variables p = variables (program (canvas m)).
Proof.
  unfold on_compile, Shader_set_code, compile.
  destruct (glsl_build (vertEdit m) (snd (shaders (program (canvas m)))))
    as [d|b1]; cbn.
  - exists (program (canvas m)). split; reflexivity.
  - destruct (glsl_build (vertEdit m) (fragEdit m)) as [d|b]; cbn;
      eexists; split; reflexivity.
Qed.

Lemma dispatch_compile (w : World) :
  fst (dispatch CompileClicked w) = with_window (fst (on_compile (window w))) w.
Proof. cbn [dispatch]. destruct (on_compile (window w)). reflexivity. Qed.

End Compile.

(** * Resize *)
Section ResizeClaims.
Context {L : Library}.

(** C9.  [on_resize] divides [width] by [float(height)] with no guard: for
    the sizes a resize event carries, the handler returns normally exactly
    when [height] is not 0, and a height of 0 raises [ZeroDivisionError],
    after the viewport has been set and before the projection is touched. *)
Theorem on_resize_defined_iff_height_nonzero
    (self : Canvas) (g : GLContext) (width height : Z) :
  window_size width height ->
  (snd (on_resize (width, height) self g) = Done <-> height <> 0)
  /\ (height = 0 ->
      on_resize (width, height) self g
      = (self, glViewport 0 0 width 0 g, Raised ZeroDivisionError)).
Proof.
  intros Hs. split; [split|].
  - intros Hdone ->. destruct Hs as [Hw _].
    rewrite on_resize_zero in Hdone by assumption. discriminate.
  - intros Hnz. now rewrite on_resize_nonzero.
  - intros ->. apply on_resize_zero. apply Hs.
Qed.


(** C6, amended.  Two resize events with positive heights and the same ratio
    [width / height] leave identical projection matrices, whatever the canvas
    was before each of them. *)
Theorem on_resize_projection_depends_on_ratio
    (self1 self2 : Canvas) (g1 g2 : GLContext) (w1 h1 w2 h2 : Z) :
  window_size w1 h1 -> window_size w2 h2 -> 0 < h1 -> 0 < h2 ->
  w1 * h2 = w2 * h1 ->
  let c1 := fst (fst (on_resize (w1, h1) self1 g1)) in
  let c2 := fst (fst (on_resize (w2, h2) self2 g2)) in
  projection c1 = projection c2
  /\ variables (program c1) !! "u_projection"
     = variables (program c2) !! "u_projection"
  /\ projection c1
     = perspective 45%float (aspect_ratio w1 h1) 2%float 10%float.
Proof.
  intros [Hw1 Hh1] [Hw2 Hh2] Hp1 Hp2 Hr.
  assert (Ha : aspect_ratio w1 h1 = aspect_ratio w2 h2).
  { unfold aspect_ratio. apply Binary64Facts.dyadic_div_ratio; unfold prec; lia. }
  rewrite !on_resize_nonzero by (unfold window_size; lia).
  rewrite Ha. cbn [fst snd projection program variables setitem set_projection
                   set_program Program_setitem].
  rewrite !lookup_insert_eq. auto.
Qed.

End ResizeClaims.

(** C9, on an instance: a 400 x 300 resize of the started application. *)
Lemma on_resize_defined_iff_height_nonzero_witness :
  window_size 400 300
  /\ snd (on_resize (400, 300) (the_canvas Sym.started) Sym.gl0) = Done.
Proof.
  assert (H : window_size 400 300) by (unfold window_size; lia).
  split; [exact H|].
  apply (proj1 (on_resize_defined_iff_height_nonzero
                  (the_canvas Sym.started) Sym.gl0 400 300 H)).
  lia.
Defined.

(** * Timer ticks *)
Section TickLemmas.
Context {L : Library}.

Lemma ticks_succ (n : N) (self : Canvas) :
  ticks (N.succ n) self = update_transforms (ticks n self).
Proof. unfold ticks. apply N.iter_succ. Qed.

Lemma theta_update (self : Canvas) :
  theta (update_transforms self) = (theta self + 0.5)%float.
Proof. reflexivity. Qed.

Lemma phi_update (self : Canvas) :
  phi (update_transforms self) = (phi self + 0.5)%float.
Proof. reflexivity. Qed.

(** After [n] ticks from angle 0.0 the angles are the binary64 number
    [n/2], up to the [2^53]th tick. *)
Lemma angles_after_ticks (self : Canvas) (n : N) :
  theta self = 0%float -> phi self = 0%float -> (n <= 2 ^ 53)%N ->
  theta (ticks n self) = Binary64.dyadic (Z.of_N n) (-1)
  /\ phi (ticks n self) = Binary64.dyadic (Z.of_N n) (-1).
Proof.
  intros Ht Hp. induction n as [|n IH] using N.peano_ind; intros Hn.
  - split; assumption.
  - destruct IH as [IHt IHp]; [lia|].
    rewrite ticks_succ, theta_update, phi_update, IHt, IHp.
    rewrite N2Z.inj_succ, <- Z.add_1_r.
    rewrite Binary64Facts.halves_succ by (unfold prec; lia). split; reflexivity.
Qed.

(** From the [2^53]th tick on the angles stay at [2^52]. *)
Lemma angles_stall (self : Canvas) :
  theta self = 0%float -> phi self = 0%float ->
  theta (ticks (N.succ (2 ^ 53)) self) = theta (ticks (2 ^ 53) self)
  /\ phi (ticks (N.succ (2 ^ 53)) self) = phi (ticks (2 ^ 53) self)
  /\ theta (ticks (2 ^ 53) self) = 4503599627370496%float.
Proof.
  intros Ht Hp.
  destruct (angles_after_ticks self (2 ^ 53) Ht Hp ltac:(lia)) as [Et Ep].
  rewrite ticks_succ, theta_update, phi_update, Et, Ep.
  change (Z.of_N (2 ^ 53)) with (2 ^ prec).
  rewrite Binary64Facts.halves_stall. repeat split.
Qed.

(** Each of the first [2^53] ticks advances both angles by exactly 1/2. *)
Lemma angles_exact (self : Canvas) (n : N) :
  theta self = 0%float -> phi self = 0%float -> (n < 2 ^ 53)%N ->
  exists a b : Q,
    Binary64.float_value (theta (ticks n self)) = Some a
    /\ Binary64.float_value (theta (ticks (N.succ n) self)) = Some b
    /\ Binary64.float_value (phi (ticks n self)) = Some a
    /\ Binary64.float_value (phi (ticks (N.succ n) self)) = Some b
    /\ (a == Z.of_N n # 2)%Q
    /\ (b == a + (1 # 2))%Q
    /\ (a < b)%Q.
Proof.
  intros Ht Hp Hn.
  destruct (angles_after_ticks self n Ht Hp ltac:(lia)) as [Et Ep].
  destruct (angles_after_ticks self (N.succ n) Ht Hp ltac:(lia)) as [Et' Ep'].
  destruct (Binary64Facts.halves_value (Z.of_N n)) as (a & Ha & Qa);
    [unfold prec; lia|].
  destruct (Binary64Facts.halves_value (Z.of_N (N.succ n))) as (b & Hb & Qb);
    [unfold prec; lia|].
  exists a, b. rewrite Et, Ep, Et', Ep'.
  assert (Hab : (b == a + (1 # 2))%Q).
  { rewrite Qa, Qb, N2Z.inj_succ. unfold Qeq, Qplus. simpl. lia. }
  repeat split; try assumption.
  rewrite Hab. rewrite <- (Qplus_0_r a) at 1.
  apply Qplus_lt_r. reflexivity.
Qed.

(** The binary64 comparison sees the increase as well. *)
Lemma angles_ltb (self : Canvas) (n : N) :
  theta self = 0%float -> phi self = 0%float -> (n < 2 ^ 53)%N ->
  (theta (ticks n self) <? theta (ticks (N.succ n) self))%float = true
  /\ (phi (ticks n self) <? phi (ticks (N.succ n) self))%float = true.
Proof.
  intros Ht Hp Hn.
  destruct (angles_after_ticks self n Ht Hp ltac:(lia)) as [Et Ep].
  destruct (angles_after_ticks self (N.succ n) Ht Hp ltac:(lia)) as [Et' Ep'].
  rewrite Et, Ep, Et', Ep', N2Z.inj_succ, <- Z.add_1_r.
  split; apply Binary64Facts.halves_lt; unfold prec; lia.
Qed.

Lemma ticks_succ_r (n : N) (self : Canvas) :
  ticks (N.succ n) self = ticks n (update_transforms self).
Proof. unfold ticks. apply N.iter_succ_r. Qed.

(** Once at [2^52] the angles stay there. *)
Lemma angles_after_stall (self : Canvas) (k : N) :
  theta self = 0%float -> phi self = 0%float ->
  theta (ticks (2 ^ 53 + k) self) = Binary64.dyadic (2 ^ 53) (-1)
  /\ phi (ticks (2 ^ 53 + k) self) = Binary64.dyadic (2 ^ 53) (-1).
Proof.
  intros Ht Hp. induction k as [|k [IHt IHp]] using N.peano_ind.
  - rewrite N.add_0_r.
    exact (angles_after_ticks self (2 ^ 53) Ht Hp ltac:(lia)).
  - rewrite N.add_succ_r, ticks_succ, theta_update, phi_update, IHt, IHp.
    split; exact Binary64Facts.halves_stall.
Qed.

(** After the [2^53]th tick and every later one both angles are [2^52], and
    the binary64 comparison sees no increase. *)
Lemma angles_stay (self : Canvas) (n : N) :
  theta self = 0%float -> phi self = 0%float -> (2 ^ 53 <= n)%N ->
  theta (ticks n self) = 4503599627370496%float
  /\ phi (ticks n self) = 4503599627370496%float
  /\ (theta (ticks n self) <? theta (ticks (N.succ n) self))%float = false
  /\ (phi (ticks n self) <? phi (ticks (N.succ n) self))%float = false.
Proof.
  intros Ht Hp Hn.
  destruct (angles_after_stall self (n - 2 ^ 53) Ht Hp) as [Et Ep].
  destruct (angles_after_stall self (N.succ n - 2 ^ 53) Ht Hp) as [Et' Ep'].
  replace (2 ^ 53 + (n - 2 ^ 53))%N with n in Et, Ep by lia.
  replace (2 ^ 53 + (N.succ n - 2 ^ 53))%N with (N.succ n) in Et', Ep' by lia.
  rewrite Et, Ep, Et', Ep'. repeat split.
Qed.

End TickLemmas.

Section TickClaims.
Context {L : Library}.


(** C7, amended.  For each of the first [2^53] ticks after
    [init_transforms], both angles after the tick are strictly greater than
    before it, by exactly 1/2: before the tick they are [n/2], after it
    [n/2 + 1/2], and the binary64 comparison [<] holds between them.  From
    the [2^53]th tick on both angles stay at [2^52]: after that tick and
    after every later one they are the float 4503599627370496.0, and the
    comparison [<] between before and after a tick is false. *)
Theorem angles_strictly_increase (self : Canvas) :
  theta self = 0%float -> phi self = 0%float ->
  (forall n : N, (n < 2 ^ 53)%N ->
     (exists a b : Q,
        Binary64.float_value (theta (ticks n self)) = Some a
        /\ Binary64.float_value (theta (ticks (N.succ n) self)) = Some b
        /\ Binary64.float_value (phi (ticks n self)) = Some a
        /\ Binary64.float_value (phi (ticks (N.succ n) self)) = Some b
        /\ (a == Z.of_N n # 2)%Q
        /\ (b == a + (1 # 2))%Q
        /\ (a < b)%Q)
     /\ (theta (ticks n self) <? theta (ticks (N.succ n) self))%float = true
     /\ (phi (ticks n self) <? phi (ticks (N.succ n) self))%float = true)
  /\ (forall n : N, (2 ^ 53 <= n)%N ->
        theta (ticks n self) = 4503599627370496%float
        /\ phi (ticks n self) = 4503599627370496%float
        /\ (theta (ticks n self) <? theta (ticks (N.succ n) self))%float = false
        /\ (phi (ticks n self) <? phi (ticks (N.succ n) self))%float = false).
Proof.
  intros Ht Hp. split.
  - intros n Hn. split.
    + now apply angles_exact.
    + now apply angles_ltb.
  - intros n Hn. now apply angles_stay.
Qed.

End TickClaims.

(** * The event loop *)
Section LoopLemmas.
Context {L : Library}.

Lemma run_app (evs1 evs2 : list Event) (w : World) :
  run (evs1 ++ evs2) w = run evs2 (run evs1 w).
Proof. unfold run. apply fold_left_app. Qed.

Lemma run_cons (ev : Event) (evs : list Event) (w : World) :
  run (ev :: evs) w = run evs (fst (dispatch ev w)).
Proof. reflexivity. Qed.

(** A property of the world kept by every handler holds along every run. *)
Lemma run_invariant (P : World -> Prop) :
  (forall ev w, P w -> P (fst (dispatch ev w))) ->
  forall evs w, P w -> P (run evs w).
Proof.
  intros Hstep evs. induction evs as [|ev evs IH]; intros w Hw.
  - exact Hw.
  - rewrite run_cons. apply IH, Hstep, Hw.
Qed.

(** [on_resize] touches the projection and its binding only. *)
Lemma on_resize_canvas (size : Z * Z) (self : Canvas) (g : GLContext) :
  let self' := fst (fst (on_resize size self g)) in
  theta self' = theta self /\ phi self' = phi self /\ model self' = model self
  /\ shaders (program self') = shaders (program self)
  /\ active (program self') = active (program self)
  /\ (forall name : string, name <> "u_projection" ->
        variables (program self') !! name = variables (program self) !! name).
Proof.
  destruct size as [width height]. unfold on_resize.
  destruct (float_of_int height) as [e|fheight]; [cbn; auto 10|].
  destruct (int_truediv_float width fheight) as [e|aspect]; [cbn; auto 10|].
  cbn. repeat split. intros name Hne. now apply lookup_insert_ne.
Qed.

(** [on_compile] touches the program only, and of the program the shaders
    and the active binary only. *)
Lemma on_compile_canvas (m : MainWindow) :
  let m' := fst (on_compile m) in
  vertEdit m' = vertEdit m /\ fragEdit m' = fragEdit m
  /\ theta (canvas m') = theta (canvas m) /\ phi (canvas m') = phi (canvas m)
  /\ model (canvas m') = model (canvas m)
  /\ variables (program (canvas m')) = variables (program (canvas m)).
Proof.
  destruct (on_compile_program m) as (p & E & Hv). cbn zeta. rewrite E.
  cbn. auto 10.
Qed.

Lemma angles_inv_dispatch (ev : Event) (w : World) :
  angles_inv (the_canvas w) -> angles_inv (the_canvas (fst (dispatch ev w))).
Proof.
  intros [Heq Hm]. destruct ev; try (split; assumption).
  - cbn [dispatch].
    pose proof (on_resize_canvas (width, height) (the_canvas w) (gl w)) as H.
    destruct (on_resize (width, height) (the_canvas w) (gl w)) as [[c g] r].
    cbn in H. destruct H as (Ht & Hp & Hmo & _).
    unfold angles_inv. cbn. rewrite Ht, Hp, Hmo. split; assumption.
  - unfold angles_inv. cbn. rewrite <- Heq. split; [reflexivity | right; reflexivity].
  - cbn [dispatch].
    pose proof (on_compile_canvas (window w)) as H.
    destruct (on_compile (window w)) as [m r].
    cbn in H. destruct H as (_ & _ & Ht & Hp & Hmo & _).
    unfold angles_inv, the_canvas. cbn. rewrite Ht, Hp, Hmo. split; assumption.
Qed.

Lemma assets_dispatch (ev : Event) (w : World) :
  assets (fst (dispatch ev w)) = assets w.
Proof.
  destruct ev; try reflexivity.
  - cbn [dispatch].
    pose proof (on_resize_canvas (width, height) (the_canvas w) (gl w)) as H.
    destruct (on_resize (width, height) (the_canvas w) (gl w)) as [[c g] r].
    cbn in H. destruct H as (_ & _ & _ & _ & _ & Hv).
    unfold assets. cbn. now rewrite !Hv.
  - unfold assets. cbn. now rewrite !lookup_insert_ne.
  - cbn [dispatch].
    pose proof (on_compile_canvas (window w)) as H.
    destruct (on_compile (window w)) as [m r].
    cbn in H. destruct H as (_ & _ & _ & _ & _ & Hv).
    unfold assets, the_canvas. cbn. now rewrite Hv.
Qed.

(** What [main] builds. *)
Lemma main_inr (g0 : GLContext) (w0 : World) :
  main g0 = inr w0 ->
  exists b : binary,
    glsl_build VERT_CODE FRAG_CODE = inr b
    /\ (positions w0, faces w0, normals w0, texcoords w0) = cube_obj
    /\ colors w0 = random_colors
    /\ faces_buffer w0 = astype_uint16 (faces w0)
    /\ gl w0 = g0
    /\ vertEdit (window w0) = VERT_CODE /\ fragEdit (window w0) = FRAG_CODE
    /\ shaders (program (the_canvas w0)) = (VERT_CODE, FRAG_CODE)
    /\ active (program (the_canvas w0)) = b
    /\ theta (the_canvas w0) = 0%float /\ phi (the_canvas w0) = 0%float
    /\ model (the_canvas w0) = eye
    /\ variables (program (the_canvas w0)) !! "a_position"
       = Some (PVertexBuffer (positions w0))
    /\ variables (program (the_canvas w0)) !! "a_texcoord"
       = Some (PVertexBuffer (texcoords w0))
    /\ variables (program (the_canvas w0)) !! "u_texture"
       = Some (PTexture2D crate).
Proof.
  unfold main, MainWindow_init, Canvas_init, Program_new.
  destruct cube_obj as [[[p f] n] t].
  destruct (glsl_build VERT_CODE FRAG_CODE) as [d|b]; [discriminate|].
  intros H. injection H as <-. exists b. cbn.
  repeat split.
Qed.

End LoopLemmas.

Section LoopClaims.
Context {L : Library}.

(** C4.  The application starts with both angles 0, the values
    [init_transforms] assigns during [Canvas.__init__]; after exactly 10
    ticks and no other event both angles are 5.0, the program still holds
    the default shader pair, its active binary is the one built from that
    pair, and a paint draws with it. *)
Theorem ten_ticks_from_start (g0 : GLContext) (w0 : World) :
  main g0 = inr w0 ->
  let w := run (repeat Tick 10) w0 in
  theta (the_canvas w0) = 0%float /\ phi (the_canvas w0) = 0%float
  /\ theta (the_canvas w) = 5%float /\ phi (the_canvas w) = 5%float
  /\ shaders (program (the_canvas w)) = (VERT_CODE, FRAG_CODE)
  /\ glsl_build VERT_CODE FRAG_CODE = inr (active (program (the_canvas w)))
  /\ framebuffer (gl (fst (dispatch Paint w)))
     = Some (rasterize (active (program (the_canvas w)))
                       (variables (program (the_canvas w))) (faces_buffer w))
  /\ (forall p : Program,
        theta (the_canvas w0) = the_theta (fst (init_transforms p))
        /\ phi (the_canvas w0) = the_phi (fst (init_transforms p))).
Proof.
  intros Hmain.
  destruct (main_inr g0 w0 Hmain)
    as (b & Hb & _ & _ & _ & _ & _ & _ & Hsh & Hact & Ht & Hp & _).
  cbn zeta. repeat (split; [first [assumption | cbn; rewrite ?Ht, ?Hp; reflexivity
                                  | cbn; congruence]|]).
  rewrite Hp. reflexivity.
Qed.


(** C8.  The mesh arrays read at start-up, the index buffer made from them
    and the texture image are never changed: after every sequence of events
    the arrays are those [read_mesh] returned, the bindings [a_position],
    [a_texcoord] and [u_texture] hold the buffers and the texture made in
    [Canvas.__init__], and each read equals the read right after start-up. *)
Theorem mesh_and_texture_never_mutated
    (g0 : GLContext) (w0 : World) (evs : list Event) :
  main g0 = inr w0 ->
  let w := run evs w0 in
  (positions w, faces w, normals w, texcoords w) = cube_obj
  /\ faces_buffer w = astype_uint16 (faces w)
  /\ variables (program (the_canvas w)) !! "a_position"
     = Some (PVertexBuffer (positions w))
  /\ variables (program (the_canvas w)) !! "a_texcoord"
     = Some (PVertexBuffer (texcoords w))
  /\ variables (program (the_canvas w)) !! "u_texture" = Some (PTexture2D crate)
  /\ assets w = assets w0.
Proof.
  intros Hmain.
  destruct (main_inr g0 w0 Hmain)
    as (_ & _ & Hmesh & _ & Hfb & _ & _ & _ & _ & _ & _ & _ & _ & Hpos & Htex & Hcrate).
  assert (H : assets (run evs w0) = assets w0).
  { apply (run_invariant (fun w => assets w = assets w0)); [|reflexivity].
    intros ev w Hw. now rewrite assets_dispatch. }
  cbn zeta. pose proof H as Hall. unfold assets in H.
  injection H as H1 H2 H3 H4 H5 H6 H7 H8.
  repeat split; congruence.
Qed.

End LoopClaims.

(** * Compiling edited shaders *)

Section CompileLemmas.
Context {L : Library}.

Lemma Event_eq_compile (ev : Event) : ev = CompileClicked \/ ev <> CompileClicked.
Proof. destruct ev; (left; reflexivity) || (right; discriminate). Qed.

(** A handler other than [on_compile] leaves the shaders and the active
    binary alone. *)
Lemma program_kept (ev : Event) (w : World) :
  ev <> CompileClicked ->
  shaders (program (the_canvas (fst (dispatch ev w))))
  = shaders (program (the_canvas w))
  /\ active (program (the_canvas (fst (dispatch ev w))))
     = active (program (the_canvas w)).
Proof.
  intros Hev. destruct ev; try (split; reflexivity); [|contradiction].
  cbn [dispatch].
  pose proof (on_resize_canvas (width, height) (the_canvas w) (gl w)) as H.
  destruct (on_resize (width, height) (the_canvas w) (gl w)) as [[c g] r].
  cbn in H. destruct H as (_ & _ & _ & Hs & Ha & _). split; assumption.
Qed.

Lemma program_kept_run (evs : list Event) (w : World) :
  Forall (fun ev => ev <> CompileClicked) evs ->
  shaders (program (the_canvas (run evs w))) = shaders (program (the_canvas w))
  /\ active (program (the_canvas (run evs w))) = active (program (the_canvas w)).
Proof.
  intros Hevs. revert w. induction Hevs as [|ev evs Hev _ IH]; intros w.
  - split; reflexivity.
  - rewrite run_cons. destruct (IH (fst (dispatch ev w))) as [-> ->].
    now apply program_kept.
Qed.

Lemma editors_dispatch (ev : Event) (w : World) :
  editors (fst (dispatch ev w))
  = match ev with
    | EditVert text => (text, snd (editors w))
    | EditFrag text => (fst (editors w), text)
    | _ => editors w
    end.
Proof.
  destruct ev; try reflexivity.
  - cbn [dispatch].
    destruct (on_resize (width, height) (the_canvas w) (gl w)) as [[c g] r].
    reflexivity.
  - rewrite dispatch_compile.
    destruct (on_compile_program (window w)) as (p & -> & _). reflexivity.
Qed.

Lemma with_canvas_same (w : World) :
  with_canvas (set_program (program (the_canvas w)) (the_canvas w)) w = w.
Proof.
  destruct w as [? ? ? ? ? ? ? [? ? [? ? ? ? ? ? ? ? ?]]]. reflexivity.
Qed.

(** Of the world a click on the button changes the program only. *)
Lemma compile_world (w : World) :
  fst (dispatch CompileClicked w)
  = with_canvas (set_program (program (the_canvas (fst (dispatch CompileClicked w))))
                             (the_canvas w)) w.
Proof.
  rewrite dispatch_compile.
  destruct (on_compile_program (window w)) as (p & -> & _). reflexivity.
Qed.

(** A click on the button, by the outcome of its two calls. *)
Lemma compile_clicked (w : World) :
  let p := program (the_canvas w) in
  let p' := program (the_canvas (fst (dispatch CompileClicked w))) in
  match glsl_build (vertEdit (window w)) (snd (shaders p)) with
  | inl d =>
      p' = p /\ snd (dispatch CompileClicked w) = Raised (ShaderCompileError d)
  | inr b1 =>
      match glsl_build (vertEdit (window w)) (fragEdit (window w)) with
      | inl d =>
          p' = {| shaders := (vertEdit (window w), snd (shaders p));
                  active := b1; variables := variables p |}
          /\ snd (dispatch CompileClicked w) = Raised (ShaderCompileError d)
      | inr b =>
          p' = {| shaders := (vertEdit (window w), fragEdit (window w));
                  active := b; variables := variables p |}
          /\ snd (dispatch CompileClicked w) = Done
      end
  end.
Proof.
  cbn [dispatch]. unfold the_canvas, on_compile, Shader_set_code, compile.
  destruct (glsl_build (vertEdit (window w))
              (snd (shaders (program (canvas (window w)))))) as [d|b1]; cbn.
  - destruct (program (canvas (window w))). split; reflexivity.
  - destruct (glsl_build (vertEdit (window w)) (fragEdit (window w)));
      cbn; split; reflexivity.
Qed.

(** The program along a run holds the pair that [last_compiled] computes,
    and its active binary is the build of that pair. *)
Lemma run_last_compiled (evs : list Event) :
  forall (w : World) (ed cp : string * string),
  editors w = ed ->
  shaders (program (the_canvas w)) = cp ->
  glsl_build (fst cp) (snd cp) = inr (active (program (the_canvas w))) ->
  shaders (program (the_canvas (run evs w))) = last_compiled evs ed cp
  /\ glsl_build (fst (last_compiled evs ed cp)) (snd (last_compiled evs ed cp))
     = inr (active (program (the_canvas (run evs w)))).
Proof.
  induction evs as [|ev evs IH]; intros w ed cp Hed Hcp Hb.
  - cbn. now subst cp.
  - rewrite run_cons.
    pose proof (editors_dispatch ev w) as He. rewrite Hed in He.
    destruct (Event_eq_compile ev) as [->|Hne].
    + pose proof (compile_clicked w) as Hc. cbn zeta in Hc.
      assert (Hv : vertEdit (window w) = fst ed) by (now subst ed).
      assert (Hf : fragEdit (window w) = snd ed) by (now subst ed).
      rewrite Hv, Hf, Hcp in Hc. cbn [last_compiled]. unfold click.
      destruct (glsl_build (fst ed) (snd cp)) as [d|b1] eqn:B1.
      * destruct Hc as [Hp _].
        apply IH; [exact He | now rewrite Hp | now rewrite Hp].
      * destruct (glsl_build (fst ed) (snd ed)) as [d|b] eqn:B2;
          destruct Hc as [Hp _]; apply IH; try exact He; rewrite Hp; cbn.
        -- reflexivity.
        -- exact B1.
        -- now destruct ed.
        -- exact B2.
    + destruct (program_kept ev w Hne) as [Hs Ha].
      assert (Hstep : forall ed',
                editors (fst (dispatch ev w)) = ed' ->
                shaders (program (the_canvas (run evs (fst (dispatch ev w)))))
                = last_compiled evs ed' cp
                /\ glsl_build (fst (last_compiled evs ed' cp))
                              (snd (last_compiled evs ed' cp))
                   = inr (active (program (the_canvas (run evs (fst (dispatch ev w))))))).
      { intros ed' Hed'. apply IH; [exact Hed' | congruence | congruence]. }
      destruct ev; try contradiction; cbn [last_compiled]; apply Hstep; exact He.
Qed.

End CompileLemmas.

Section CompileClaims.
Context {L : Library}.



End CompileClaims.

(** * Instances and counterexamples on the symbolic library *)

(** Closed equations between values of the symbolic library are settled by
    evaluation. *)
Ltac by_evaluation :=
  match goal with |- _ = ?b => vm_cast_no_check (@eq_refl _ b) end.

(** A vertex shader that writes [v_texcoord], so that it links with the
    default fragment shader. *)
Definition flat_vertex : string :=
  "varying vec2 v_texcoord; void main() { v_texcoord = vec2(0.0); gl_Position = vec4(0.0); }".

(** The default pair with the varying renamed in both stages. *)
Definition renamed_vertex : string :=
  "attribute vec3 a_position; attribute vec2 a_texcoord; varying vec2 v_uv; void main() { v_uv = a_texcoord; gl_Position = vec4(a_position, 1.0); }".

Definition renamed_fragment : string :=
  "uniform sampler2D u_texture; varying vec2 v_uv; void main() { gl_FragColor = texture2D(u_texture, v_uv); }".

(** The started application after the user has typed [flat_vertex] and
    emptied the fragment editor. *)
Definition half_valid : World :=
  run [EditVert flat_vertex; EditFrag ""] Sym.started.

(** The started application after the user has renamed the varying in both
    editors. *)
Definition renamed : World :=
  run [EditVert renamed_vertex; EditFrag renamed_fragment] Sym.started.



Lemma main_started : main Sym.gl0 = inr Sym.started.
Proof. vm_cast_no_check (eq_refl (main Sym.gl0)). Qed.

(** C4, on an instance. *)
Lemma ten_ticks_from_start_witness :
  theta (the_canvas (run (repeat Tick 10) Sym.started)) = 5%float
  /\ phi (the_canvas (run (repeat Tick 10) Sym.started)) = 5%float.
Proof.
  pose proof (ten_ticks_from_start Sym.gl0 Sym.started main_started) as H.
  cbn zeta in H. split; [exact (proj1 (proj2 (proj2 H)))
                        | exact (proj1 (proj2 (proj2 (proj2 H))))].
Defined.



(** C6, on an instance: 400 x 300 and 800 x 600. *)
Lemma on_resize_projection_depends_on_ratio_witness :
  projection (fst (fst (on_resize (400, 300) (the_canvas Sym.started) Sym.gl0)))
  = projection (fst (fst (on_resize (800, 600) (the_canvas emptied) Sym.gl0))).
Proof.
  assert (H1 : window_size 400 300) by (unfold window_size; lia).
  assert (H2 : window_size 800 600) by (unfold window_size; lia).
  exact (proj1 (on_resize_projection_depends_on_ratio
                  (the_canvas Sym.started) (the_canvas emptied) Sym.gl0 Sym.gl0
                  400 300 800 600 H1 H2 ltac:(lia) ltac:(lia) ltac:(lia))).
Defined.

(** C6: in one run the first and the third event are resizes to the same
    size 400 x 0; the projection matrices they leave differ: the identity of
    [init_transforms] after the first, the matrix of the 400 x 300 resize in
    between after the third. *)
Lemma on_resize_same_size_counterexample :
  projection (the_canvas (run [Resize 400 0] Sym.started)) = Sym.Eye
  /\ projection (the_canvas
                   (run [Resize 400 0; Resize 400 300; Resize 400 0] Sym.started))
     = Sym.Perspective 45 (400 / 300) 2 10
  /\ Sym.Eye <> Sym.Perspective 45 (400 / 300) 2 10.
Proof. repeat split; try by_evaluation. discriminate. Qed.

(** C7, on an instance: the fourth tick. *)
Lemma angles_strictly_increase_witness :
  (theta (ticks 3 (the_canvas Sym.started))
   <? theta (ticks (N.succ 3) (the_canvas Sym.started)))%float = true.
Proof.
  exact (proj1 (proj2 (proj1 (angles_strictly_increase (the_canvas Sym.started)
                                eq_refl eq_refl) 3%N ltac:(lia)))).
Defined.

(** C7: the tick after the [2^53]th leaves both angles where they were, at
    [2^52]; the comparison [<] between before and after is false. *)
Lemma angles_stop_increasing_counterexample :
  (theta (ticks (2 ^ 53) (the_canvas Sym.started))
   <? theta (ticks (N.succ (2 ^ 53)) (the_canvas Sym.started)))%float = false
  /\ (phi (ticks (2 ^ 53) (the_canvas Sym.started))
      <? phi (ticks (N.succ (2 ^ 53)) (the_canvas Sym.started)))%float = false.
Proof.
  destruct (angles_after_ticks (the_canvas Sym.started) (2 ^ 53) eq_refl eq_refl
              ltac:(lia)) as [Et Ep].
  rewrite !ticks_succ, theta_update, phi_update, Et, Ep.
  change (Z.of_N (2 ^ 53)) with (2 ^ prec).
  split; exact Binary64Facts.halves_stall_ltb.
Qed.


(** C8, on an instance: ticks, a failing resize, a paint and a recompile. *)
Lemma mesh_and_texture_never_mutated_witness :
  assets (run [Tick; Resize 400 0; Paint; EditFrag ""; CompileClicked; Tick]
              Sym.started)
  = assets Sym.started.
Proof.
  pose proof (mesh_and_texture_never_mutated Sym.gl0 Sym.started
                [Tick; Resize 400 0; Paint; EditFrag ""; CompileClicked; Tick]
                main_started) as H.
  cbn zeta in H. exact (proj2 (proj2 (proj2 (proj2 (proj2 H))))).
Defined.


(** * Further properties of the handlers *)

(** The number of timer ticks among the events of a run. *)
Fixpoint count_ticks (evs : list Event) : N :=
  match evs with
  | [] => 0
  | Tick :: evs => N.succ (count_ticks evs)
  | _ :: evs => count_ticks evs
  end.

Lemma Event_eq_dec_tick (ev : Event) : ev = Tick \/ ev <> Tick.
Proof. destruct ev; (left; reflexivity) || (right; discriminate). Qed.

Section TickFacts.
Context {L : Library}.

(** The model matrix after a tick is built from the angles after the tick. *)
Lemma model_update (self : Canvas) :
  model (update_transforms self)
  = rotate (rotate eye (theta (update_transforms self)) 0 0 1)
           (phi (update_transforms self)) 0 1 0.
Proof. reflexivity. Qed.

(** What a tick reads of the canvas: the two angles. *)
Lemma ticks_ext (n : N) (c1 c2 : Canvas) :
  theta c1 = theta c2 -> phi c1 = phi c2 -> model c1 = model c2 ->
  theta (ticks n c1) = theta (ticks n c2)
  /\ phi (ticks n c1) = phi (ticks n c2)
  /\ model (ticks n c1) = model (ticks n c2).
Proof.
  intros Ht Hp Hm. induction n as [|n (IHt & IHp & IHm)] using N.peano_ind.
  - repeat split; assumption.
  - rewrite !ticks_succ, !model_update, !theta_update, !phi_update, IHt, IHp.
    repeat split.
Qed.

(** A handler other than [update_transforms] leaves the angles, the model
    matrix and the count of requested repaints alone. *)
Lemma rotation_kept (ev : Event) (w : World) :
  ev <> Tick ->
  theta (the_canvas (fst (dispatch ev w))) = theta (the_canvas w)
  /\ phi (the_canvas (fst (dispatch ev w))) = phi (the_canvas w)
  /\ model (the_canvas (fst (dispatch ev w))) = model (the_canvas w)
  /\ updates (the_canvas (fst (dispatch ev w))) = updates (the_canvas w).
Proof.
  intros Hev. destruct ev; try contradiction; try (repeat split; reflexivity).
  - cbn [dispatch]. unfold on_resize.
    destruct (float_of_int height) as [e|fheight]; [repeat split; reflexivity|].
    destruct (int_truediv_float width fheight) as [e|aspect];
      repeat split; reflexivity.
  - rewrite dispatch_compile.
    destruct (on_compile_program (window w)) as (p & -> & _).
    repeat split; reflexivity.
Qed.

(** The angles after any number of ticks. *)
Lemma angles_closed (self : Canvas) (n : N) :
  theta self = 0%float -> phi self = 0%float ->
  theta (ticks n self) = Binary64.dyadic (Z.of_N (N.min n (2 ^ 53))) (-1)
  /\ phi (ticks n self) = Binary64.dyadic (Z.of_N (N.min n (2 ^ 53))) (-1).
Proof.
  intros Ht Hp. destruct (N.le_gt_cases n (2 ^ 53)) as [Hle|Hgt].
  - rewrite N.min_l by assumption. now apply angles_after_ticks.
  - rewrite N.min_r by lia.
    destruct (angles_after_stall self (n - 2 ^ 53) Ht Hp) as [A B].
    replace (2 ^ 53 + (n - 2 ^ 53))%N with n in A, B by lia.
    split; [exact A | exact B].
Qed.

Lemma model_ticks (self : Canvas) (n : N) :
  (0 < n)%N ->
  model (ticks n self)
  = rotate (rotate eye (theta (ticks n self)) 0 0 1) (phi (ticks n self)) 0 1 0.
Proof.
  intros Hn. rewrite <- (N.succ_pred_pos n Hn), ticks_succ. apply model_update.
Qed.

End TickFacts.

Section TickExtras.
Context {L : Library}.

(** X1.  After [n] ticks from the angles 0.0 of [init_transforms], both
    angles are the binary64 number [min(n, 2^53) / 2]: they grow by one half
    per tick up to [2^52] and stay there for ever after, and from the first
    tick on the model matrix is the rotation about Z and then Y by that
    angle, so the cube stops turning with the [2^53]th tick. *)
Theorem ticks_closed_form (self : Canvas) (n : N) :
  theta self = 0%float -> phi self = 0%float ->
  theta (ticks n self) = Binary64.dyadic (Z.of_N (N.min n (2 ^ 53))) (-1)
  /\ phi (ticks n self) = theta (ticks n self)
  /\ Binary64.float_is (theta (ticks n self)) (Z.of_N (N.min n (2 ^ 53)) # 2)
  /\ ((0 < n)%N ->
      model (ticks n self)
      = rotate (rotate eye (theta (ticks n self)) 0 0 1) (theta (ticks n self)) 0 1 0)
  /\ ((2 ^ 53 <= n)%N -> model (ticks (N.succ n) self) = model (ticks n self)).
Proof.
  intros Ht Hp. destruct (angles_closed self n Ht Hp) as [Et Ep].
  split; [exact Et|]. split; [congruence|]. split; [|split].
  - rewrite Et. apply Binary64Facts.halves_value.
    pose proof (N.le_min_r n (2 ^ 53)). unfold prec. lia.
  - intros Hn. rewrite model_ticks by assumption. now rewrite Ep, Et.
  - intros Hn. destruct (angles_closed self (N.succ n) Ht Hp) as [Et' Ep'].
    rewrite !model_ticks by lia. rewrite Et, Ep, Et', Ep'.
    now rewrite !N.min_r by lia.
Qed.

End TickExtras.

Section RunExtras.
Context {L : Library}.

(** X2.  The rotation of the cube depends on the number of ticks only: after
    any sequence of events the angles and the model matrix are those of the
    canvas ticked as many times as the sequence has ticks, whatever resizes,
    paints, edits and compiles came in between. *)
Theorem rotation_depends_on_tick_count (evs : list Event) (w : World) :
  theta (the_canvas (run evs w)) = theta (ticks (count_ticks evs) (the_canvas w))
  /\ phi (the_canvas (run evs w)) = phi (ticks (count_ticks evs) (the_canvas w))
  /\ model (the_canvas (run evs w))
     = model (ticks (count_ticks evs) (the_canvas w)).
Proof.
  revert w. induction evs as [|ev evs IH]; intros w; [repeat split|].
  rewrite run_cons. specialize (IH (fst (dispatch ev w))).
  destruct IH as (IHt & IHp & IHm). rewrite IHt, IHp, IHm.
  destruct (Event_eq_dec_tick ev) as [->|Hne].
  - cbn [count_ticks]. rewrite ticks_succ_r. repeat split.
  - destruct (rotation_kept ev w Hne) as (Ht & Hp & Hm & _).
    replace (count_ticks (ev :: evs)) with (count_ticks evs)
      by (destruct ev; try reflexivity; contradiction).
    now apply ticks_ext.
Qed.

(** X3.  Repaints are requested by ticks and by nothing else: after any
    sequence of events the canvas has asked for as many repaints more as the
    sequence has ticks; a resize or a recompile asks for none. *)
Theorem repaints_requested_by_ticks (evs : list Event) (w : World) :
  updates (the_canvas (run evs w))
  = (updates (the_canvas w) + N.to_nat (count_ticks evs))%nat.
Proof.
  revert w. induction evs as [|ev evs IH]; intros w.
  - cbn. lia.
  - rewrite run_cons, IH. destruct (Event_eq_dec_tick ev) as [->|Hne].
    + cbn [count_ticks]. rewrite N2Nat.inj_succ. cbn. lia.
    + destruct (rotation_kept ev w Hne) as (_ & _ & _ & Hu). rewrite Hu.
      replace (count_ticks (ev :: evs)) with (count_ticks evs)
        by (destruct ev; try reflexivity; contradiction).
      reflexivity.
Qed.

End RunExtras.

(** The events of a run that are not paints. *)
Definition without_paints (evs : list Event) : list Event :=
  List.filter (fun ev => match ev with Paint => false | _ => true end) evs.

Section HandlerFacts.
Context {L : Library}.

(** Two worlds that differ in the content of the framebuffer at most. *)
Definition same_but_frame (w1 w2 : World) : Prop :=
  window w1 = window w2
  /\ (positions w1, faces w1, normals w1, texcoords w1, colors w1, faces_buffer w1)
     = (positions w2, faces w2, normals w2, texcoords w2, colors w2, faces_buffer w2)
  /\ (clear_color (gl w1), depth_test (gl w1), viewport (gl w1))
     = (clear_color (gl w2), depth_test (gl w2), viewport (gl w2)).

Lemma same_but_frame_dispatch (ev : Event) (w1 w2 : World) :
  same_but_frame w1 w2 ->
  same_but_frame (fst (dispatch ev w1)) (fst (dispatch ev w2)).
Proof.
  destruct w1 as [p1 f1 n1 t1 c1 b1 [cc1 dt1 vp1 fb1] m1].
  destruct w2 as [p2 f2 n2 t2 c2 b2 [cc2 dt2 vp2 fb2] m2].
  unfold same_but_frame. cbn. intros (Hm & Hd & Hg).
  injection Hd as -> -> -> -> -> ->. injection Hg as -> -> ->. subst m2.
  destruct ev; cbn; try (repeat split; reflexivity).
  - unfold the_canvas, on_resize. cbn.
    destruct (float_of_int height) as [e|fheight]; [repeat split; reflexivity|].
    destruct (int_truediv_float width fheight) as [e|aspect];
      repeat split; reflexivity.
  - destruct (on_compile m1) as [m r]. repeat split; reflexivity.
Qed.

Lemma same_but_frame_paint_l (w : World) :
  same_but_frame (fst (dispatch Paint w)) w.
Proof. repeat split. Qed.

Lemma paint_same_but_frame (w1 w2 : World) :
  same_but_frame w1 w2 -> fst (dispatch Paint w1) = fst (dispatch Paint w2).
Proof.
  destruct w1 as [p1 f1 n1 t1 c1 b1 [cc1 dt1 vp1 fb1] m1].
  destruct w2 as [p2 f2 n2 t2 c2 b2 [cc2 dt2 vp2 fb2] m2].
  unfold same_but_frame. cbn. intros (Hm & Hd & Hg).
  injection Hd as -> -> -> -> -> ->. injection Hg as -> -> ->. subst m2.
  reflexivity.
Qed.

Lemma same_but_frame_trans (w1 w2 w3 : World) :
  same_but_frame w1 w2 -> same_but_frame w2 w3 -> same_but_frame w1 w3.
Proof.
  unfold same_but_frame. intros (A1 & A2 & A3) (B1 & B2 & B3).
  repeat split; congruence.
Qed.

Lemma run_without_paints (evs : list Event) :
  forall w1 w2 : World,
  same_but_frame w1 w2 ->
  same_but_frame (run evs w1) (run (without_paints evs) w2).
Proof.
  induction evs as [|ev evs IH]; intros w1 w2 H; [exact H|].
  rewrite run_cons. destruct ev; cbn [without_paints List.filter];
    try (rewrite run_cons; apply IH; now apply same_but_frame_dispatch).
  apply IH. eapply same_but_frame_trans; [apply same_but_frame_paint_l | exact H].
Qed.

(** A resize with a height other than 0 does the same after another
    resize as without it. *)
Lemma on_resize_twice (width0 height0 width height : Z)
    (self : Canvas) (g : GLContext) :
  window_size width height -> height <> 0 ->
  let '(c1, g1, _) := on_resize (width0, height0) self g in
  on_resize (width, height) c1 g1 = on_resize (width, height) self g.
Proof.
  intros Hs Hnz.
  destruct (on_resize (width0, height0) self g) as [[c1 g1] r1] eqn:E.
  rewrite !on_resize_nonzero by assumption.
  unfold on_resize in E.
  destruct (float_of_int height0) as [e|fheight];
    [|destruct (int_truediv_float width0 fheight) as [e|aspect]];
    injection E as <- <- <-; try reflexivity.
  unfold setitem, set_program, Program_setitem. cbn.
  rewrite insert_insert_eq. reflexivity.
Qed.

Lemma dispatch_resize (width height : Z) (w : World) :
  fst (dispatch (Resize width height) w)
  = with_gl (snd (fst (on_resize (width, height) (the_canvas w) (gl w))))
      (with_canvas (fst (fst (on_resize (width, height) (the_canvas w) (gl w)))) w).
Proof.
  cbn [dispatch].
  destruct (on_resize (width, height) (the_canvas w) (gl w)) as [[c g] r].
  reflexivity.
Qed.

(** The clear colour and the depth test, once [on_initialize] has set them. *)
Definition initialized (w : World) : Prop :=
  clear_color (gl w) = (1, 1, 1, 1) /\ depth_test (gl w) = true.

Lemma initialized_dispatch (ev : Event) (w : World) :
  initialized w -> initialized (fst (dispatch ev w)).
Proof.
  unfold initialized. intros [Hc Hd].
  destruct ev as [|width height| | |text|text|]; cbn [dispatch fst];
    try (split; assumption).
  - split; reflexivity.
  - destruct (on_resize (width, height) (the_canvas w) (gl w)) as [[c g] r] eqn:E.
    unfold on_resize in E.
    destruct (float_of_int height) as [e|fheight];
      [|destruct (int_truediv_float width fheight) as [e|aspect]];
      injection E as <- <- <-; cbn; split; assumption.
  - destruct (on_compile (window w)) as [m r]. cbn. split; assumption.
Qed.

End HandlerFacts.

Section HandlerExtras.
Context {L : Library}.


(** X5.  A resize with a height other than 0 wipes out what an earlier
    resize did: viewport, projection matrix and its binding are those of the
    later one, whether the earlier one returned or raised. *)
Theorem resize_overrides_resize (w : World) (width0 height0 width height : Z) :
  window_size width height -> height <> 0 ->
  run [Resize width0 height0; Resize width height] w
  = run [Resize width height] w.
Proof.
  intros Hs Hnz. unfold run. cbn [fold_left].
  rewrite !dispatch_resize. cbn [the_canvas window canvas gl with_gl with_canvas
                                 with_window].
  pose proof (on_resize_twice width0 height0 width height
                (the_canvas w) (gl w) Hs Hnz) as H.
  destruct (on_resize (width0, height0) (the_canvas w) (gl w)) as [[c1 g1] r1].
  cbn [fst snd]. rewrite H. destruct w as [p f n t c b g [ve fe cv]]. reflexivity.
Qed.

(** X6.  Painting only shows the state: the world after a run that ends in
    a paint is the world after the same run with every earlier paint left
    out.  No handler reads the framebuffer, and [on_paint] clears it before
    it draws. *)
Theorem earlier_paints_leave_no_trace (evs : list Event) (w : World) :
  run (evs ++ [Paint]) w = run (without_paints evs ++ [Paint]) w.
Proof.
  rewrite !run_app. change (run [Paint] ?x) with (fst (dispatch Paint x)).
  apply paint_same_but_frame, run_without_paints.
  repeat split.
Qed.

(** X7.  Once [on_initialize] has run, the clear colour stays opaque white
    and the depth test stays enabled through every later event: no other
    handler sets either. *)
Theorem initialize_settings_persist (evs1 evs2 : list Event) (w : World) :
  clear_color (gl (run (evs1 ++ Initialize :: evs2) w)) = (1, 1, 1, 1)
  /\ depth_test (gl (run (evs1 ++ Initialize :: evs2) w)) = true.
Proof.
  rewrite run_app, run_cons.
  apply (run_invariant initialized).
  - intros ev w'. apply initialized_dispatch.
  - split; reflexivity.
Qed.

End HandlerExtras.

Section StartupFacts.
Context {L : Library}.

(** What the handlers keep of the canvas [Canvas.__init__] built: the view
    matrix, its binding and the timer. *)
Definition camera (w : World) :=
  (view (the_canvas w), timer (the_canvas w),
   variables (program (the_canvas w)) !! "u_view").

Lemma camera_dispatch (ev : Event) (w : World) :
  camera (fst (dispatch ev w)) = camera w.
Proof.
  destruct ev as [|width height| | |text|text|]; try reflexivity.
  - rewrite dispatch_resize. unfold camera, on_resize.
    destruct (float_of_int height) as [e|fheight]; [reflexivity|].
    destruct (int_truediv_float width fheight) as [e|aspect]; [reflexivity|].
    cbn. now rewrite lookup_insert_ne.
  - unfold camera. cbn. now rewrite lookup_insert_ne.
  - rewrite dispatch_compile.
    destruct (on_compile_program (window w)) as (p & -> & Hv).
    unfold camera. cbn. now rewrite Hv.
Qed.

Lemma main_camera (g0 : GLContext) (w0 : World) :
  main g0 = inr w0 ->
  camera w0 = (translate eye 0 0 (-5),
               {| interval := (1 / 60)%float; running := true |},
               Some (PMat (translate eye 0 0 (-5))))
  /\ projection (the_canvas w0) = eye
  /\ variables (program (the_canvas w0)) !! "u_projection" = None
  /\ variables (program (the_canvas w0)) !! "u_model"
     = Some (PMat (model (the_canvas w0)))
  /\ dom (variables (program (the_canvas w0)))
     = ({["a_position"; "a_texcoord"; "u_texture"; "u_model"; "u_view"]}
        : gset string).
Proof.
  unfold main, MainWindow_init, Canvas_init, Program_new.
  destruct cube_obj as [[[p f] n] t].
  destruct (glsl_build VERT_CODE FRAG_CODE) as [d|b]; [discriminate|].
  intros H. injection H as <-. unfold camera. cbn.
  repeat split.
Qed.

(** The binding of [u_model] is the model matrix; the binding of
    [u_projection] is missing or the projection matrix. *)
Definition uniforms_inv (w : World) : Prop :=
  variables (program (the_canvas w)) !! "u_model"
  = Some (PMat (model (the_canvas w)))
  /\ (variables (program (the_canvas w)) !! "u_projection" = None
      /\ projection (the_canvas w) = eye
      \/ variables (program (the_canvas w)) !! "u_projection"
         = Some (PMat (projection (the_canvas w)))).

Lemma uniforms_inv_dispatch (ev : Event) (w : World) :
  uniforms_inv w -> uniforms_inv (fst (dispatch ev w)).
Proof.
  intros [Hm Hp].
  destruct ev as [|width height| | |text|text|]; try (split; assumption).
  - rewrite dispatch_resize. unfold uniforms_inv, on_resize.
    destruct (float_of_int height) as [e|fheight]; [split; assumption|].
    destruct (int_truediv_float width fheight) as [e|aspect]; [split; assumption|].
    cbn. split.
    + rewrite lookup_insert_ne by discriminate. exact Hm.
    + right. apply lookup_insert_eq.
  - unfold uniforms_inv. cbn. split; [apply lookup_insert_eq|].
    rewrite lookup_insert_ne by discriminate. exact Hp.
  - rewrite dispatch_compile.
    destruct (on_compile_program (window w)) as (p & -> & Hv).
    unfold uniforms_inv, the_canvas in *. cbn. rewrite Hv. split; assumption.
Qed.

(** Only a resize binds [u_projection]. *)
Lemma projection_binding_kept (ev : Event) (w : World) :
  match ev with
  | Resize _ _ => True
  | _ => variables (program (the_canvas (fst (dispatch ev w)))) !! "u_projection"
         = variables (program (the_canvas w)) !! "u_projection"
  end.
Proof.
  destruct ev as [|width height| | |text|text|]; try exact I; try reflexivity.
  - cbn. now rewrite lookup_insert_ne.
  - rewrite dispatch_compile.
    destruct (on_compile_program (window w)) as (p & -> & Hv).
    unfold the_canvas. cbn. now rewrite Hv.
Qed.

(** Whether [on_resize] returns normally for a size: [float(height)] and
    the division yield a value. *)
Definition resize_returns (width height : Z) : bool :=
  match float_of_int height with
  | inl _ => false
  | inr fheight =>
      match int_truediv_float width fheight with
      | inl _ => false
      | inr _ => true
      end
  end.

(** Whether some resize among the events returns normally. *)
Fixpoint resized (evs : list Event) : bool :=
  match evs with
  | [] => false
  | Resize width height :: evs => resize_returns width height || resized evs
  | _ :: evs => resized evs
  end.

(** The names bound in the program: the five of [Canvas.__init__], and
    [u_projection] once a resize has bound it. *)
Definition names (with_projection : bool) : gset string :=
  if with_projection
  then {["a_position"; "a_texcoord"; "u_texture"; "u_model"; "u_view";
         "u_projection"]}
  else {["a_position"; "a_texcoord"; "u_texture"; "u_model"; "u_view"]}.

Lemma resize_returns_done (width height : Z) (self : Canvas) (g : GLContext) :
  resize_returns width height = true
  <-> snd (on_resize (width, height) self g) = Done.
Proof.
  unfold resize_returns, on_resize.
  destruct (float_of_int height) as [e|fheight]; [cbn; split; discriminate|].
  destruct (int_truediv_float width fheight) as [e|aspect]; cbn;
    split; (discriminate || reflexivity).
Qed.

Lemma names_dispatch (ev : Event) (w : World) (b : bool) :
  dom (variables (program (the_canvas w))) = names b ->
  dom (variables (program (the_canvas (fst (dispatch ev w)))))
  = names (b || match ev with
                | Resize width height => resize_returns width height
                | _ => false
                end).
Proof.
  intros H.
  destruct ev as [|width height| | |text|text|];
    try (rewrite orb_false_r; exact H).
  - rewrite dispatch_resize. unfold resize_returns, on_resize.
    destruct (float_of_int height) as [e|fheight];
      [rewrite orb_false_r; exact H|].
    destruct (int_truediv_float width fheight) as [e|aspect];
      [rewrite orb_false_r; exact H|].
    rewrite orb_true_r. cbn. rewrite dom_insert_L, H.
    destruct b; unfold names; set_solver.
  - rewrite orb_false_r. cbn. rewrite dom_insert_L, H.
    destruct b; unfold names; set_solver.
  - rewrite orb_false_r, dispatch_compile.
    destruct (on_compile_program (window w)) as (p & -> & Hv).
    unfold the_canvas in *. cbn. rewrite Hv. exact H.
Qed.

Lemma names_run (evs : list Event) :
  forall (w : World) (b : bool),
  dom (variables (program (the_canvas w))) = names b ->
  dom (variables (program (the_canvas (run evs w)))) = names (b || resized evs).
Proof.
  induction evs as [|ev evs IH]; intros w b H.
  - cbn. now rewrite orb_false_r.
  - rewrite run_cons.
    rewrite (IH _ _ (names_dispatch ev w b H)), <- orb_assoc.
    destruct ev; reflexivity.
Qed.

End StartupFacts.

Section StartupExtras.
Context {L : Library}.

(** X8.  The camera never moves: after start-up and every sequence of
    events the view matrix is the translation by (0, 0, -5) that
    [init_transforms] applied to the identity, [u_view] is bound to it, and
    the timer started in [Canvas.__init__] is still running at 1/60 s. *)
Theorem view_never_changes (g0 : GLContext) (w0 : World) (evs : list Event) :
  main g0 = inr w0 ->
  view (the_canvas (run evs w0)) = translate eye 0 0 (-5)
  /\ variables (program (the_canvas (run evs w0))) !! "u_view"
     = Some (PMat (translate eye 0 0 (-5)))
  /\ timer (the_canvas (run evs w0))
     = {| interval := (1 / 60)%float; running := true |}.
Proof.
  intros Hmain. destruct (main_camera g0 w0 Hmain) as (Hc & _).
  assert (H : camera (run evs w0) = camera w0).
  { apply (run_invariant (fun w => camera w = camera w0)); [|reflexivity].
    intros ev w Hw. now rewrite camera_dispatch. }
  rewrite Hc in H. unfold camera in H. injection H as H1 H2 H3.
  repeat split; assumption.
Qed.



(** X11.  A square window has aspect ratio exactly 1.0: for every side
    length a resize event can carry, [width / float(height)] is the float
    1.0 and the projection matrix is [perspective(45.0, 1.0, 2.0, 10.0)]. *)
Theorem square_window_aspect_one (side : Z) (self : Canvas) (g : GLContext) :
  0 < side < 2 ^ 31 ->
  aspect_ratio side side = 1%float
  /\ projection (fst (fst (on_resize (side, side) self g)))
     = perspective 45%float 1%float 2%float 10%float.
Proof.
  intros Hs.
  assert (Ha : aspect_ratio side side = 1%float).
  { transitivity (aspect_ratio 1 1); [|reflexivity].
    unfold aspect_ratio. apply Binary64Facts.dyadic_div_ratio; unfold prec; lia. }
  split; [exact Ha|].
  rewrite on_resize_nonzero by (unfold window_size; lia).
  rewrite Ha. reflexivity.
Qed.

End StartupExtras.

(** X1, on an instance: three ticks of the started canvas. *)
Lemma ticks_closed_form_witness :
  theta (ticks 3 (the_canvas Sym.started)) = Binary64.dyadic 3 (-1).
Proof.
  exact (proj1 (ticks_closed_form (the_canvas Sym.started) 3 eq_refl eq_refl)).
Defined.


(** X5, on an instance: a failing resize, then one to 400 x 300. *)
Lemma resize_overrides_resize_witness :
  run [Resize 640 0; Resize 400 300] Sym.started
  = run [Resize 400 300] Sym.started.
Proof.
  apply (resize_overrides_resize Sym.started 640 0 400 300).
  - unfold window_size. lia.
  - lia.
Defined.

(** X8, on an instance. *)
Lemma view_never_changes_witness :
  view (the_canvas (run [Tick; Resize 400 300; Paint] Sym.started))
  = Sym.Translate Sym.Eye 0 0 (-5).
Proof.
  exact (proj1 (view_never_changes Sym.gl0 Sym.started
                  [Tick; Resize 400 300; Paint] main_started)).
Defined.



(** X11, on an instance: the 400 x 400 of the initial geometry. *)
Lemma square_window_aspect_one_witness : aspect_ratio 400 400 = 1%float.
Proof.
  exact (proj1 (square_window_aspect_one 400 (the_canvas Sym.started) Sym.gl0
                  ltac:(lia))).
Defined.
